(** * TafelKampioen: exercise generation, mastery tracking and the practice session

    A shallow embedding of the logic of the [App] component (the exercise
    generator [generateExercise], the answer handler [handleAnswer], the
    question timer [startTimer] and the form handler [handleSubmit]) together
    with the records of [types.ts].

    Modelling conventions.
    - JavaScript numbers that hold table values, operands, results and scores
      are integers ([Z]); the values drawn from [Math.random()] and the
      countdown [timeLeft] are exact rationals ([Q]), so the step [0.05] of
      the countdown is 1/20.
    - [Math.random()] reads the next element of a stream of draws; every
      property that depends on the draws assumes each of them lies in [0,1).
    - The table selection compares [Math.random() * totalWeight] with sums of
      weights, so which table is chosen can depend on the last bit of that
      product: it is rounded to the nearest double ([roundDouble]).  The
      subtractions that follow are exact on doubles as long as the remainder
      stays positive, and keep its sign when it does not.
    - A string stands for the JavaScript string whose code units are its
      characters (code units below 256).
    - The mastery object is a finite map from keys such as
      ["multiplication-5"] to scores.
    - A function created by [useCallback] sees the state of the render that
      created it.  That render is an explicit argument ([Render]) of
      [handleAnswer] and [startTimer], and it is stored with the running
      interval and with every scheduled [setTimeout] callback. *)

From Stdlib Require Import ZArith QArith Qround Qpower Qfield String Ascii List Lia Lqa.
From stdpp Require Import gmap strings list fin_maps pretty sorting.
Import ListNotations.

Open Scope Z_scope.

(** ** Data model ([types.ts]) *)

Inductive Operation := multiplication | division.

Record Exercise := {
  a : Z;
  b : Z;
  op : Operation;
  result : Z;
  display : option string;
  isChallenge : option bool
}.

(** [exerciseCount: 10 | 20 | 50 | 'all'] *)
Inductive ExerciseCount := Count10 | Count20 | Count50 | CountAll.

(** The field [exerciseCount] is optional here because the default settings
    object built by [App] has no such property. *)
Record UserSettings := {
  multiplicationTables : list Z;
  divisionTables : list Z;
  exerciseCount : option ExerciseCount
}.

Abbreviation MasteryData := (gmap string Z).

(** The operation as it appears in a template string. *)
Definition Operation_str (o : Operation) : string :=
  match o with
  | multiplication => "multiplication"
  | division => "division"
  end.

(** [`${op}-${t}`] *)
Definition masteryKey (o : Operation) (t : Z) : string :=
  Operation_str o +:+ "-" +:+ pretty t.

(** [mastery[key] || 0] *)
Definition scoreOf (mastery : MasteryData) (key : string) : Z :=
  default 0 (mastery !! key).

(** ** The source of randomness *)

Definition Rng := nat -> Q.

Definition Rand (A : Type) : Type := Rng -> A * Rng.

Definition ret {A} (x : A) : Rand A := fun g => (x, g).

Definition bind {A B} (m : Rand A) (k : A -> Rand B) : Rand B :=
  fun g => let (x, g') := m g in k x g'.

Notation "'let*' x ':=' m 'in' k" := (bind m (fun x => k))
  (at level 10, x name, m at level 100, k at level 200).

Definition advanceRng (g : Rng) : Rng := fun n => g (S n).

(** [Math.random()] *)
Definition Math_random : Rand Q := fun g => (g 0%nat, advanceRng g).

(** Every draw lies in [0,1). *)
Definition unitDraws (g : Rng) : Prop :=
  forall n, (0 <= g n)%Q /\ (g n < 1)%Q.

(** [Math.floor(Math.random() * n)] *)
Definition floorScaled (r : Q) (n : Z) : Z := Qfloor (r * inject_Z n).

Definition randomBelow (n : Z) : Rand Z :=
  let* r := Math_random in ret (floorScaled r n).

(** [Math.random() > 0.5] *)
Definition coinFlip : Rand bool :=
  let* r := Math_random in ret (negb (Qle_bool r (1 # 2))).

(** ** Products of doubles

    The product of two doubles is the double nearest to the exact product,
    a tie going to the even significand (IEEE 754 binary64, the arithmetic of
    JavaScript numbers). *)

Definition pow2 (k : Z) : Q := ((2 # 1) ^ k)%Q.

(** The exponent [e] with [2^e <= y < 2^(e+1)], for positive [y]. *)
Definition binadeOf (y : Q) : Z :=
  if Qle_bool 1 y then Z.log2 (Qfloor y) else - Z.log2_up (Qceiling (/ y)).

(** The exponent of the spacing of the doubles around a positive [y]: 52
    binary places below the exponent of [y], and never below that of the
    smallest subnormal, [2^-1074].  From [2^53] on a double no longer holds
    every integer; as the integers of this development are exact, the spacing
    is kept at 1 there. *)
Definition ulpExponent (y : Q) : Z := Z.max (-1074) (Z.min (binadeOf y) 52 - 52).

(** The integer nearest to [z], the even one when [z] is halfway between two. *)
Definition roundHalfEven (z : Q) : Z :=
  let n := Qfloor z in
  match (z - inject_Z n ?= 1 # 2)%Q with
  | Lt => n
  | Gt => n + 1
  | Eq => if Z.even n then n else n + 1
  end.

Definition roundPositive (y : Q) : Q :=
  let ulp := pow2 (ulpExponent y) in
  (inject_Z (roundHalfEven (y / ulp)) * ulp)%Q.

(** The double nearest to [y]. *)
Definition roundDouble (y : Q) : Q :=
  match (y ?= 0)%Q with
  | Eq => 0%Q
  | Gt => roundPositive y
  | Lt => (- roundPositive (- y))%Q
  end.

(** ** Exercise generation ([generateExercise]) *)

Definition availableOps (settings : UserSettings) : list Operation :=
  (if (0 <? length (multiplicationTables settings))%nat then [multiplication] else [])
  ++ (if (0 <? length (divisionTables settings))%nat then [division] else []).

Definition selectedTablesOf (settings : UserSettings) (o : Operation) : list Z :=
  match o with
  | multiplication => multiplicationTables settings
  | division => divisionTables settings
  end.

(** [selectedTables.map(t => 11 - (mastery[`${op}-${t}`] || 0))] *)
Definition weightsOf (mastery : MasteryData) (o : Operation) (tables : list Z) : list Z :=
  map (fun t => 11 - scoreOf mastery (masteryKey o t)) tables.

(** [weights.reduce((a, b) => a + b, 0)] *)
Definition totalWeightOf (weights : list Z) : Z := fold_left Z.add weights 0.

(** The selection loop: [random -= weights[i]; if (random <= 0) { tableIndex = i; break; }].
    When the loop runs off the end, [tableIndex] keeps its initial value 0. *)
Fixpoint weightedIndex (weights : list Z) (random : Q) (i : nat) : nat :=
  match weights with
  | [] => 0%nat
  | w :: rest =>
      let random' := (random - inject_Z w)%Q in
      if Qle_bool random' 0 then i else weightedIndex rest random' (S i)
  end.

(** The multiplication sign of the [display] template (U+00D7). *)
Definition timesSign : string := String "215"%char EmptyString.

(** [`(${table} × ${b}) + ${c}`] *)
Definition compoundDisplay (table b0 c : Z) : string :=
  "(" +:+ pretty table +:+ " " +:+ timesSign +:+ " " +:+ pretty b0 +:+ ") + " +:+ pretty c.

(** [score > 8 && Math.random() > 0.5]: the draw happens only when the score
    exceeds 8. *)
Definition challengeGate (score : Z) : Rand bool :=
  if 8 <? score then coinFlip else ret false.

Definition mkExercise (x y : Z) (o : Operation) (res : Z)
    (d : option string) (c : option bool) : Exercise :=
  {| a := x; b := y; op := o; result := res; display := d; isChallenge := c |}.

(** [const [a, b] = Math.random() > 0.5 ? [table, other] : [other, table]] *)
Definition orderedProduct (table other : Z) : Rand Exercise :=
  let* tableFirst := coinFlip in
  let '(x, y) := if tableFirst then (table, other) else (other, table) in
  ret (mkExercise x y multiplication (x * y) None None).

Definition multiplicationExercise (table score : Z) : Rand Exercise :=
  let* challenge := challengeGate score in
  if challenge then
    let* larger := coinFlip in
    if larger then
      let* k := randomBelow 5 in
      let other := 11 + k in
      ret (mkExercise table other multiplication (table * other) None (Some true))
    else
      let* b0 := randomBelow 11 in
      let* k := randomBelow 10 in
      let c := 1 + k in
      ret (mkExercise table b0 multiplication (table * b0 + c)
             (Some (compoundDisplay table b0 c)) (Some true))
  else if score <? 3 then
    let simple := [0; 1; 2; 5; 10] in
    let* k := randomBelow (Z.of_nat (length simple)) in
    let other := nth (Z.to_nat k) simple 0 in
    orderedProduct table other
  else
    let* other := randomBelow 11 in
    orderedProduct table other.

Definition divisionExercise (table score : Z) : Rand Exercise :=
  let* challenge := challengeGate score in
  if challenge then
    let* k := randomBelow 5 in
    let q := 11 + k in
    ret (mkExercise (table * q) table division q None (Some true))
  else if score <? 3 then
    let simple := [1; 2; 5; 10] in
    let* k := randomBelow (Z.of_nat (length simple)) in
    let q := nth (Z.to_nat k) simple 0 in
    ret (mkExercise (table * q) table division q None None)
  else
    let* q := randomBelow 11 in
    ret (mkExercise (table * q) table division q None None).

(** The weighted choice of a table among [selectedTables]:
    [let random = Math.random() * totalWeight], then the selection loop. *)
Definition pickTable (mastery : MasteryData) (o : Operation) (selectedTables : list Z) : Rand Z :=
  let weights := weightsOf mastery o selectedTables in
  let totalWeight := totalWeightOf weights in
  let* r := Math_random in
  let random := roundDouble (r * inject_Z totalWeight) in
  let tableIndex := weightedIndex weights random 0 in
  ret (nth tableIndex selectedTables 0).

(** [availableOps[Math.floor(Math.random() * availableOps.length)]].  The
    index is in range whenever the draw lies in [0,1); the default is never
    used then. *)
Definition pickOp (ops : list Operation) : Rand Operation :=
  let* k := randomBelow (Z.of_nat (length ops)) in
  ret (nth (Z.to_nat k) ops division).

(** The body of one pass through the attempt loop, up to the comparison with
    [previous]. *)
Definition candidate (settings : UserSettings) (mastery : MasteryData) : Rand Exercise :=
  let* o := pickOp (availableOps settings) in
  let selectedTables := selectedTablesOf settings o in
  let* table := pickTable mastery o selectedTables in
  let score := scoreOf mastery (masteryKey o table) in
  match o with
  | multiplication => multiplicationExercise table score
  | division => divisionExercise table score
  end.

(** [!previous || (next.a !== previous.a && next.b !== previous.b
     && next.result !== previous.result)] *)
Definition accepted (previous : option Exercise) (next : Exercise) : bool :=
  match previous with
  | None => true
  | Some p =>
      negb (a next =? a p) && negb (b next =? b p) && negb (result next =? result p)
  end.

(** [while (attempts < 20) { attempts++; ... }], by the number of attempts left. *)
Fixpoint attemptLoop (settings : UserSettings) (mastery : MasteryData)
    (previous : option Exercise) (attemptsLeft : nat) : Rand (option Exercise) :=
  match attemptsLeft with
  | O => ret None
  | S n =>
      let* next := candidate settings mastery in
      if accepted previous next then ret (Some next)
      else attemptLoop settings mastery previous n
  end.

Definition generateExercise (settings : UserSettings) (mastery : MasteryData)
    (previous : option Exercise) : Rand (option Exercise) :=
  if (length (availableOps settings) =? 0)%nat then ret None
  else attemptLoop settings mastery previous 20.

(** ** [parseInt] with no radix argument

    [None] stands for [NaN].  The value is the exact integer the digits
    denote; for a result that a JavaScript number holds exactly, comparing it
    with [===] to what [parseInt] returns is comparing it to that integer. *)

Definition isWhiteSpace (c : ascii) : bool :=
  let n := nat_of_ascii c in
  ((9 <=? n) && (n <=? 13) || (n =? 32) || (n =? 160))%nat.

Fixpoint trimStart (s : string) : string :=
  match s with
  | String c rest => if isWhiteSpace c then trimStart rest else s
  | EmptyString => s
  end.

Definition digitValue (c : ascii) : option Z :=
  let n := Z.of_nat (nat_of_ascii c) in
  if (48 <=? n) && (n <=? 57) then Some (n - 48)
  else if (97 <=? n) && (n <=? 122) then Some (n - 87)
  else if (65 <=? n) && (n <=? 90) then Some (n - 55)
  else None.

Definition radixDigit (radix : Z) (c : ascii) : option Z :=
  match digitValue c with
  | Some d => if d <? radix then Some d else None
  | None => None
  end.

(** The value of the longest prefix of radix digits, continuing from [acc]. *)
Fixpoint readDigits (radix : Z) (s : string) (acc : Z) : Z :=
  match s with
  | String c rest =>
      match radixDigit radix c with
      | Some d => readDigits radix rest (acc * radix + d)
      | None => acc
      end
  | EmptyString => acc
  end.

Definition startsWithDigit (radix : Z) (s : string) : bool :=
  match s with
  | String c _ => bool_decide (is_Some (radixDigit radix c))
  | EmptyString => false
  end.

(** A leading [-] or [+] is removed and gives the sign. *)
Definition stripSign (s : string) : Z * string :=
  match s with
  | String c rest =>
      if (c =? "-")%char then (-1, rest)
      else if (c =? "+")%char then (1, rest)
      else (1, s)
  | EmptyString => (1, s)
  end.

(** A leading [0x] or [0X] is removed and makes the radix 16; the radix is
    10 otherwise. *)
Definition stripHexPrefix (s : string) : Z * string :=
  match s with
  | String c0 (String c1 rest) =>
      if ((c0 =? "0") && ((c1 =? "x") || (c1 =? "X")))%char then (16, rest)
      else (10, s)
  | _ => (10, s)
  end.

Definition parseInt (s : string) : option Z :=
  let '(sign, s1) := stripSign (trimStart s) in
  let '(radix, s2) := stripHexPrefix s1 in
  if startsWithDigit radix s2 then Some (sign * readDigits radix s2 0) else None.

(** ** Component state ([App]) *)

Inductive Mode := ModeSettings | ModePractice | ModeResults.

Inductive Feedback := FeedbackCorrect | FeedbackIncorrect.

Record Stats := { correct : Z; total : Z }.

Record HistoryItem := { exercise : Exercise; answeredCorrectly : bool }.

(** What the callbacks created during one render see of the state. *)
Record Render := {
  r_settings : UserSettings;
  r_mastery : MasteryData;
  r_currentExercise : option Exercise;
  r_feedback : option Feedback;
  r_stats : Stats
}.

(** A callback passed to [setTimeout] by [handleAnswer]: the render of that
    [handleAnswer] and its local [nextStats]. *)
Record Scheduled := { s_render : Render; s_nextStats : Stats }.

(** The [useState] cells, the interval held by [timerRef] (with the render
    whose [handleAnswer] its callback calls) and the [setTimeout] callbacks
    that have not run yet, oldest first. *)
Record AppState := {
  mode : Mode;
  settings : UserSettings;
  mastery : MasteryData;
  currentExercise : option Exercise;
  userAnswer : string;
  feedback : option Feedback;
  stats : Stats;
  history : list HistoryItem;
  timeLeft : Q;
  timerRef : option Render;
  timeouts : list Scheduled
}.

Definition renderOf (st : AppState) : Render :=
  {| r_settings := settings st; r_mastery := mastery st;
     r_currentExercise := currentExercise st; r_feedback := feedback st;
     r_stats := stats st |}.

Definition setMode (m : Mode) (st : AppState) : AppState :=
  {| mode := m; settings := settings st; mastery := mastery st;
     currentExercise := currentExercise st; userAnswer := userAnswer st;
     feedback := feedback st; stats := stats st; history := history st;
     timeLeft := timeLeft st; timerRef := timerRef st; timeouts := timeouts st |}.

Definition setSettings (f : UserSettings -> UserSettings) (st : AppState) : AppState :=
  {| mode := mode st; settings := f (settings st); mastery := mastery st;
     currentExercise := currentExercise st; userAnswer := userAnswer st;
     feedback := feedback st; stats := stats st; history := history st;
     timeLeft := timeLeft st; timerRef := timerRef st; timeouts := timeouts st |}.

Definition setMastery (f : MasteryData -> MasteryData) (st : AppState) : AppState :=
  {| mode := mode st; settings := settings st; mastery := f (mastery st);
     currentExercise := currentExercise st; userAnswer := userAnswer st;
     feedback := feedback st; stats := stats st; history := history st;
     timeLeft := timeLeft st; timerRef := timerRef st; timeouts := timeouts st |}.

Definition setCurrentExercise (e : option Exercise) (st : AppState) : AppState :=
  {| mode := mode st; settings := settings st; mastery := mastery st;
     currentExercise := e; userAnswer := userAnswer st;
     feedback := feedback st; stats := stats st; history := history st;
     timeLeft := timeLeft st; timerRef := timerRef st; timeouts := timeouts st |}.

Definition setUserAnswer (s : string) (st : AppState) : AppState :=
  {| mode := mode st; settings := settings st; mastery := mastery st;
     currentExercise := currentExercise st; userAnswer := s;
     feedback := feedback st; stats := stats st; history := history st;
     timeLeft := timeLeft st; timerRef := timerRef st; timeouts := timeouts st |}.

Definition setFeedback (f : option Feedback) (st : AppState) : AppState :=
  {| mode := mode st; settings := settings st; mastery := mastery st;
     currentExercise := currentExercise st; userAnswer := userAnswer st;
     feedback := f; stats := stats st; history := history st;
     timeLeft := timeLeft st; timerRef := timerRef st; timeouts := timeouts st |}.

Definition setStats (s : Stats) (st : AppState) : AppState :=
  {| mode := mode st; settings := settings st; mastery := mastery st;
     currentExercise := currentExercise st; userAnswer := userAnswer st;
     feedback := feedback st; stats := s; history := history st;
     timeLeft := timeLeft st; timerRef := timerRef st; timeouts := timeouts st |}.

Definition setHistory (f : list HistoryItem -> list HistoryItem) (st : AppState) : AppState :=
  {| mode := mode st; settings := settings st; mastery := mastery st;
     currentExercise := currentExercise st; userAnswer := userAnswer st;
     feedback := feedback st; stats := stats st; history := f (history st);
     timeLeft := timeLeft st; timerRef := timerRef st; timeouts := timeouts st |}.

Definition setTimeLeft (t : Q) (st : AppState) : AppState :=
  {| mode := mode st; settings := settings st; mastery := mastery st;
     currentExercise := currentExercise st; userAnswer := userAnswer st;
     feedback := feedback st; stats := stats st; history := history st;
     timeLeft := t; timerRef := timerRef st; timeouts := timeouts st |}.

Definition setTimerRef (t : option Render) (st : AppState) : AppState :=
  {| mode := mode st; settings := settings st; mastery := mastery st;
     currentExercise := currentExercise st; userAnswer := userAnswer st;
     feedback := feedback st; stats := stats st; history := history st;
     timeLeft := timeLeft st; timerRef := t; timeouts := timeouts st |}.

Definition setTimeouts (l : list Scheduled) (st : AppState) : AppState :=
  {| mode := mode st; settings := settings st; mastery := mastery st;
     currentExercise := currentExercise st; userAnswer := userAnswer st;
     feedback := feedback st; stats := stats st; history := history st;
     timeLeft := timeLeft st; timerRef := timerRef st; timeouts := l |}.

(** [useState] initial values; [saved] settings and mastery come from
    [localStorage] when present. *)
Definition defaultSettings : UserSettings :=
  {| multiplicationTables := []; divisionTables := []; exerciseCount := None |}.

Definition initialState (savedSettings : option UserSettings)
    (savedMastery : option MasteryData) : AppState :=
  {| mode := ModeSettings;
     settings := default defaultSettings savedSettings;
     mastery := default ∅ savedMastery;
     currentExercise := None; userAnswer := ""; feedback := None;
     stats := {| correct := 0; total := 0 |}; history := [];
     timeLeft := 15; timerRef := None; timeouts := [] |}.

(** ** Handlers *)

(** [clearInterval(timerRef.current); timerRef.current = null] *)
Definition stopTimer (st : AppState) : AppState := setTimerRef None st.

(** [settings.multiplicationTables.includes(x)] *)
Definition includes (l : list Z) (x : Z) : bool := existsb (Z.eqb x) l.

(** The table whose mastery key [handleAnswer] updates. *)
Definition tableKeyOf (s : UserSettings) (e : Exercise) : Z :=
  match op e with
  | multiplication => if includes (multiplicationTables s) (a e) then a e else b e
  | division => b e
  end.

(** [answer !== null && parseInt(answer) === currentExercise.result] *)
Definition isCorrectAnswer (answer : option string) (e : Exercise) : bool :=
  match answer with
  | Some s => bool_decide (parseInt s = Some (result e))
  | None => false
  end.

(** [isCorrect ? Math.min(10, currentScore + 1) : Math.max(0, currentScore - 1)] *)
Definition nextScoreOf (isCorrect : bool) (currentScore : Z) : Z :=
  if isCorrect then Z.min 10 (currentScore + 1) else Z.max 0 (currentScore - 1).

(** The updater passed to [setMastery]. *)
Definition updateMastery (key : string) (isCorrect : bool) (prev : MasteryData) : MasteryData :=
  <[key := nextScoreOf isCorrect (scoreOf prev key)]> prev.

(** [handleAnswer] as created by render [r], called with [answer] ([None]
    for [null]) in state [st].  The guard, the exercise, the settings and the
    statistics are those of [r]; the updaters of [setMastery] and
    [setHistory] receive the current values. *)
Definition handleAnswer (r : Render) (answer : option string) (st : AppState) : AppState :=
  match r_currentExercise r, r_feedback r with
  | Some ex, None =>
      let st := stopTimer st in
      let isCorrect := isCorrectAnswer answer ex in
      let st := setFeedback (Some (if isCorrect then FeedbackCorrect else FeedbackIncorrect)) st in
      let key := masteryKey (op ex) (tableKeyOf (r_settings r) ex) in
      let st := setMastery (updateMastery key isCorrect) st in
      let nextStats :=
        {| correct := correct (r_stats r) + (if isCorrect then 1 else 0);
           total := total (r_stats r) + 1 |} in
      let st := setStats nextStats st in
      let st := setHistory (fun prev => prev ++ [{| exercise := ex; answeredCorrectly := isCorrect |}]) st in
      setTimeouts (timeouts st ++ [{| s_render := r; s_nextStats := nextStats |}]) st
  | _, _ => st
  end.

(** [startTimer] as created by render [r]: the interval callback calls the
    [handleAnswer] of [r]. *)
Definition startTimer (r : Render) (st : AppState) : AppState :=
  setTimerRef (Some r) (setTimeLeft 15 (stopTimer st)).

(** One run of the interval callback.  [0.05] is taken as the rational 1/20. *)
Definition intervalTick (st : AppState) : AppState :=
  match timerRef st with
  | None => st
  | Some r =>
      if Qle_bool (timeLeft st) (1 # 20) then
        setTimeLeft 0 (handleAnswer r None (stopTimer st))
      else setTimeLeft (timeLeft st - (1 # 20))%Q st
  end.

(** The callback scheduled by [handleAnswer], run one second later.  Its
    [generateExercise], [currentExercise] and [startTimer] are those of the
    render [r] that created the [handleAnswer] which scheduled it. *)
Definition advance (s : Scheduled) (st : AppState) : Rand AppState :=
  let r := s_render s in
  if 10 <=? total (s_nextStats s) then ret (setMode ModeResults st)
  else
    let* next := generateExercise (r_settings r) (r_mastery r) (r_currentExercise r) in
    ret (startTimer r (setFeedback None (setUserAnswer "" (setCurrentExercise next st)))).

(** The oldest scheduled callback runs. *)
Definition timeoutFires (st : AppState) : Rand AppState :=
  match timeouts st with
  | [] => ret st
  | s :: rest => advance s (setTimeouts rest st)
  end.

(** [handleSubmit] of the current render. *)
Definition handleSubmit (st : AppState) : AppState :=
  if bool_decide (userAnswer st = "") then st
  else handleAnswer (renderOf st) (Some (userAnswer st)) st.

(** [startPractice] of the current render.  The [startTimer] it calls is the
    one of that same render, the one showing the start button. *)
Definition startPractice (st : AppState) : Rand AppState :=
  if ((length (multiplicationTables (settings st)) =? 0)
      && (length (divisionTables (settings st)) =? 0))%nat
  then ret st
  else
    let st1 := setHistory (fun _ => []) (setStats {| correct := 0; total := 0 |} st) in
    let* first := generateExercise (settings st) (mastery st) None in
    ret (startTimer (renderOf st)
           (setFeedback None (setUserAnswer "" (setMode ModePractice (setCurrentExercise first st1))))).

(** [const TABLES = Array.from({ length: 11 }, (_, i) => i)] *)
Definition TABLES : list Z := map Z.of_nat (seq 0 11).

(** The updater passed to [setSettings] by [toggleTable]. *)
Definition toggleTable (num : Z) (o : Operation) (prev : UserSettings) : UserSettings :=
  let current := selectedTablesOf prev o in
  let next :=
    if includes current num then filter (fun n => n <> num) current
    else merge_sort Z.le (current ++ [num]) in
  match o with
  | multiplication =>
      {| multiplicationTables := next; divisionTables := divisionTables prev;
         exerciseCount := exerciseCount prev |}
  | division =>
      {| multiplicationTables := multiplicationTables prev; divisionTables := next;
         exerciseCount := exerciseCount prev |}
  end.

(** The [pattern="[0-9]*"] of the answer input: every character is a decimal
    digit. *)
Definition isDecimalDigit (c : ascii) : bool :=
  ((48 <=? nat_of_ascii c) && (nat_of_ascii c <=? 57))%nat.

Fixpoint allDecimal (s : string) : bool :=
  match s with
  | String c rest => isDecimalDigit c && allDecimal rest
  | EmptyString => true
  end.

(** ** Events

    What the user and the browser can do to the component.  An event that the
    current view does not offer (a button that is not rendered, the disabled
    division button for 0, the disabled input, a form whose input does not
    match its pattern) leaves the state as it is. *)

Inductive Event :=
  | ClickTable (o : Operation) (n : Z)
  | ClickStart
  | TypeAnswer (s : string)
  | PressEnter
  | IntervalFires
  | TimeoutFires
  | ClickBack
  | ClickSettings.

Definition practiceShown (st : AppState) : bool :=
  match mode st, currentExercise st with
  | ModePractice, Some _ => true
  | _, _ => false
  end.

Definition inputEnabled (st : AppState) : bool :=
  practiceShown st && bool_decide (feedback st = None).

(** The browser submits the form only when the input matches its pattern. *)
Definition submitEnabled (st : AppState) : bool :=
  inputEnabled st && allDecimal (userAnswer st).

Definition tableButtonEnabled (o : Operation) (n : Z) : bool :=
  includes TABLES n &&
  match o with
  | multiplication => true
  | division => negb (n =? 0)
  end.

Definition step (ev : Event) (st : AppState) : Rand AppState :=
  match ev, mode st with
  | ClickTable o n, ModeSettings =>
      ret (if tableButtonEnabled o n then setSettings (toggleTable n o) st else st)
  | ClickStart, (ModeSettings | ModeResults) => startPractice st
  | TypeAnswer s, _ => ret (if inputEnabled st then setUserAnswer s st else st)
  | PressEnter, _ => ret (if submitEnabled st then handleSubmit st else st)
  | IntervalFires, _ => ret (intervalTick st)
  | TimeoutFires, _ => timeoutFires st
  | ClickBack, _ => ret (if practiceShown st then setMode ModeSettings (stopTimer st) else st)
  | ClickSettings, ModeResults => ret (setMode ModeSettings st)
  | _, _ => ret st
  end.

Fixpoint run (evs : list Event) (st : AppState) : Rand AppState :=
  match evs with
  | [] => ret st
  | ev :: rest => let* st' := step ev st in run rest st'
  end.

(** Typing an answer, pressing Enter and waiting for the feedback delay. *)
Definition answerRound (s : string) : list Event := [TypeAnswer s; PressEnter; TimeoutFires].

(** A session in which every question is answered by hand. *)
Definition manualSession (answers : list string) : list Event :=
  ClickStart :: concat (map answerRound answers).

(** ** Vocabulary of the properties *)

(** [always m P]: on every stream of draws in [0,1), [m] returns a value
    satisfying [P] and leaves a stream of draws in [0,1). *)
Definition always {A} (m : Rand A) (P : A -> Prop) : Prop :=
  forall g, unitDraws g -> P (m g).1 /\ unitDraws (m g).2.

(** The sum of a list of weights. *)
Definition weightSum (ws : list Z) : Z := foldr Z.add 0 ws.

(** What is left of the scaled draw [x] once the weights of the candidates
    0..k have been subtracted from it. *)
Definition remainderAfter (ws : list Z) (x : Q) (k : nat) : Q :=
  (x - inject_Z (weightSum (take (S k) ws)))%Q.

(** The range of [Math.random()]: the doubles of [0,1), the largest of
    which is [1 - 2^-53]. *)
Definition drawRange (r : Q) : Prop := (0 <= r)%Q /\ (r <= 1 - pow2 (-53))%Q.

(** The key under which the score of a table is stored, written out: the
    name of the operation, a dash, the table in decimal. *)
Definition keyText (o : Operation) (t : Z) : string :=
  match o with
  | multiplication => "multiplication-" +:+ pretty t
  | division => "division-" +:+ pretty t
  end.

(** Every stored mastery score lies in [0,10]. *)
Definition masteryInRange (m : MasteryData) : Prop :=
  map_Forall (fun _ v => 0 <= v <= 10) m.

(** The shape of a division exercise over the tables of [s]: the dividend
    is divisor times quotient, the divisor [b] is a configured table, and the
    quotient lies in the band selected by the mastery score of that table. *)
Definition divisionShape (s : UserSettings) (m : MasteryData) (e : Exercise) : Prop :=
  a e = b e * result e /\ In (b e) (divisionTables s) /\
  let sc := scoreOf m (masteryKey division (b e)) in
  (isChallenge e = Some true /\ 8 < sc /\ 11 <= result e <= 15) \/
  (isChallenge e = None /\ sc < 3 /\ In (result e) [1; 2; 5; 10]) \/
  (isChallenge e = None /\ 3 <= sc /\ 0 <= result e <= 10).

(** The shape of a multiplication exercise over the tables of [s]: without a
    [display] string the result is the product of the operands; with one, the
    exercise is the compound challenge [(t * b) + c]. *)
Definition multiplicationShape (s : UserSettings) (e : Exercise) : Prop :=
  match display e with
  | None => a e * b e = result e
  | Some d =>
      In (a e) (multiplicationTables s) /\ 0 <= b e <= 10 /\
      isChallenge e = Some true /\
      exists c, 1 <= c <= 10 /\ result e = (a e * b e) + c /\
                d = compoundDisplay (a e) (b e) c
  end.

Definition exerciseShape (s : UserSettings) (m : MasteryData) (e : Exercise) : Prop :=
  match op e with
  | multiplication => multiplicationShape s e
  | division => divisionShape s m e
  end.

(** The acceptance rule in the words of the specification: a candidate is
    kept when at least one of [a], [b], [result] differs from [previous]. *)
Definition differsSomewhere (previous next : Exercise) : bool :=
  negb (a next =? a previous) || negb (b next =? b previous)
  || negb (result next =? result previous).

(** The table credited with an answer, in the words of the specification. *)
Definition creditedTable (s : UserSettings) (e : Exercise) : Z :=
  match op e with
  | multiplication =>
      if decide (elem_of (a e) (multiplicationTables s)) then a e else b e
  | division => b e
  end.

(** Between the mastery objects [before] and [after], the score stored
    under [key] (0 when nothing is stored) took one step, up or down, and
    nothing else changed. *)
Definition creditedAt (key : string) (isCorrect : bool)
    (before after : MasteryData) : Prop :=
  after = <[key := nextScoreOf isCorrect (default 0 (before !! key))]> before.

(** No character of [s] is a decimal digit. *)
Fixpoint noDecimal (s : string) : bool :=
  match s with
  | String c rest => negb (isDecimalDigit c) && noDecimal rest
  | EmptyString => true
  end.

(** [s] is empty or starts with a character that is not a decimal digit. *)
Definition digitsEnd (s : string) : bool :=
  match s with
  | String c _ => negb (isDecimalDigit c)
  | EmptyString => true
  end.

(** The number written by a string of decimal digits, continuing from [acc]. *)
Fixpoint decimalValueFrom (acc : Z) (ds : string) : Z :=
  match ds with
  | String c rest => decimalValueFrom (10 * acc + (Z.of_nat (nat_of_ascii c) - 48)) rest
  | EmptyString => acc
  end.

Definition decimalValue (ds : string) : Z := decimalValueFrom 0 ds.

(** [s] begins with [0x] or [0X]. *)
Definition hexPrefixed (s : string) : bool :=
  match s with
  | String c0 (String c1 _) => ((c0 =? "0") && ((c1 =? "x") || (c1 =? "X")))%char
  | _ => false
  end.


(** What the user interface maintains: 0 is never a division table and the
    mastery scores stay in [0,10]. *)
Definition wellFormed (st : AppState) : Prop :=
  ~ In 0 (divisionTables (settings st)) /\ masteryInRange (mastery st).

(** A list of tables in strictly ascending order (so without repetition). *)
Definition ascending (l : list Z) : Prop := StronglySorted Z.lt l.

(** The table sets as the settings screen builds them: ascending, the
    multiplication tables among 0..10 and the division tables among 1..10. *)
Definition settingsOk (s : UserSettings) : Prop :=
  ascending (multiplicationTables s) /\
  Forall (fun n => 0 <= n <= 10) (multiplicationTables s) /\
  ascending (divisionTables s) /\
  Forall (fun n => 1 <= n <= 10) (divisionTables s).

(** The difficulty band of a multiplication exercise built for [table] at
    mastery [score]: a challenge (only above score 8) has the table first and
    either a second operand in [11,15] or the compound form with [b] in
    [0,10]; otherwise the operands are the table and another number, in
    either order, the other number being one of 0, 1, 2, 5, 10 below score 3
    and in [0,10] from score 3 on. *)
Definition multiplicationBand (table score : Z) (e : Exercise) : Prop :=
  (isChallenge e = Some true /\ 8 < score /\ a e = table /\
   ((display e = None /\ 11 <= b e <= 15) \/ (display e <> None /\ 0 <= b e <= 10))) \/
  (isChallenge e = None /\ display e = None /\
   exists other,
     ((a e = table /\ b e = other) \/ (a e = other /\ b e = table)) /\
     if score <? 3 then In other [0; 1; 2; 5; 10] else 0 <= other <= 10).


(** The countdown is between 0 and 15. *)
Definition timeLeftInRange (st : AppState) : Prop :=
  (0 <= timeLeft st)%Q /\ (timeLeft st <= 15)%Q.

(** ** Concrete inputs *)

(** The stream that starts with the draws [l] and goes on with zeros. *)
Definition drawsOf (l : list Q) : Rng := fun n => nth n l 0%Q.

Definition inUnit (q : Q) : bool := Qle_bool 0 q && negb (Qle_bool 1 q).

Definition twoOperations : UserSettings :=
  {| multiplicationTables := [2; 5]; divisionTables := [3; 4];
     exerciseCount := Some Count10 |}.

(** Tables 5 (multiplication) and 4 (division) are nearly mastered. *)
Definition someMastery : MasteryData :=
  <["multiplication-5" := 9]> (<["division-4" := 9]> ∅).

(** A question on screen, about to be answered. *)
Definition asking (e : Exercise) (typed : string) : AppState :=
  setUserAnswer typed
    (setMastery (fun _ => someMastery)
       (setCurrentExercise (Some e)
          (setMode ModePractice (initialState (Some twoOperations) None)))).

(** The app as loaded with the multiplication table 5 selected and sessions
    of 20 questions configured. *)
Definition twentyOfFive : AppState :=
  initialState
    (Some {| multiplicationTables := [5]; divisionTables := [];
             exerciseCount := Some Count20 |}) None.

Definition tenTimesFive : Exercise := mkExercise 10 5 multiplication 50 None None.

Definition zeroTimesFive : Exercise := mkExercise 0 5 multiplication 0 None None.

(** A question 0 x 5 on screen with [0x] typed into the input. *)
Definition askingZeroTimesFive : AppState :=
  setUserAnswer "0x"
    (setCurrentExercise (Some zeroTimesFive)
       (setMode ModePractice
          (initialState
             (Some {| multiplicationTables := [5]; divisionTables := [];
                      exerciseCount := None |}) None))).

(** A stream of draws: 0.11, 0.48, 0.85, 0.22, ... *)
Definition exampleDraws : Rng :=
  fun n => Qmake (Z.of_nat ((n * 37 + 11) mod 100)) 100.

Definition onlyDivisionBy5 : UserSettings :=
  {| multiplicationTables := []; divisionTables := [5]; exerciseCount := None |}.

Definition fiveByFive : Exercise := mkExercise 5 5 division 1 None None.

(** The question 50 : 5 on screen in a session over the division table 5 alone. *)
Definition askingFiftyByFive : AppState :=
  setCurrentExercise (Some (mkExercise 50 5 division 10 None None))
    (setMode ModePractice (initialState (Some onlyDivisionBy5) None)).

(** Draws that lead to the compound challenge (5 x 3) + 7. *)
Definition compoundDraws : Rng :=
  drawsOf [1 # 10; 9 # 10; 9 # 10; 1 # 10; 3 # 10; 65 # 100].

Definition compoundExercise : Exercise :=
  mkExercise 5 3 multiplication 22 (Some (compoundDisplay 5 3 7)) (Some true).

(** * Properties *)

(** ** Reasoning about computations that draw random numbers *)

Lemma unitDraws_advance g : unitDraws g -> unitDraws (advanceRng g).
Proof. intros H n. apply (H (S n)). Qed.

Lemma always_ret {A} (x : A) (P : A -> Prop) : P x -> always (ret x) P.
Proof. intros HP g Hg. split; assumption. Qed.

Lemma always_bind {A B} (m : Rand A) (k : A -> Rand B) (Q : A -> Prop) (P : B -> Prop) :
  always m Q -> (forall x, Q x -> always (k x) P) -> always (bind m k) P.
Proof.
  intros Hm Hk g Hg. unfold bind.
  destruct (Hm g Hg) as [HQ Hg'].
  destruct (m g) as [x g']. simpl in *.
  apply (Hk x HQ g' Hg').
Qed.

Lemma always_weaken {A} (m : Rand A) (P Q : A -> Prop) :
  always m P -> (forall x, P x -> Q x) -> always m Q.
Proof.
  intros Hm HPQ g Hg. destruct (Hm g Hg) as [HP Hg']. split; auto.
Qed.

Lemma always_random : always Math_random (fun r => (0 <= r)%Q /\ (r < 1)%Q).
Proof.
  intros g Hg. split.
  - apply (Hg 0%nat).
  - apply unitDraws_advance, Hg.
Qed.

Lemma floorScaled_range (r : Q) (n : Z) :
  (0 <= r)%Q -> (r < 1)%Q -> 0 < n -> 0 <= floorScaled r n < n.
Proof.
  intros H0 H1 Hn. unfold floorScaled.
  assert (Hq : (inject_Z 0 < inject_Z n)%Q) by (rewrite <- Zlt_Qlt; exact Hn).
  change (inject_Z 0) with 0%Q in Hq.
  split.
  - rewrite <- (Qfloor_Z 0). apply Qfloor_resp_le.
    change (inject_Z 0) with 0%Q.
    apply Qmult_le_0_compat; [exact H0 | apply Qlt_le_weak; exact Hq].
  - assert (Hlt : (inject_Z (Qfloor (r * inject_Z n)) < inject_Z n)%Q).
    { eapply Qle_lt_trans; [apply Qfloor_le|].
      rewrite <- (Qmult_1_l (inject_Z n)) at 2.
      apply Qmult_lt_compat_r; assumption. }
    rewrite <- Zlt_Qlt in Hlt. exact Hlt.
Qed.

Lemma always_randomBelow (n : Z) :
  0 < n -> always (randomBelow n) (fun k => 0 <= k < n).
Proof.
  intros Hn. unfold randomBelow.
  eapply always_bind; [apply always_random|].
  intros r [H0 H1]. apply always_ret. apply floorScaled_range; assumption.
Qed.

Lemma always_coinFlip : always coinFlip (fun _ => True).
Proof.
  unfold coinFlip. eapply always_bind; [apply always_random|].
  intros r _. apply always_ret. exact I.
Qed.

Lemma always_challengeGate (score : Z) :
  always (challengeGate score) (fun c => c = true -> 8 < score).
Proof.
  unfold challengeGate. destruct (8 <? score) eqn:E.
  - eapply always_weaken; [apply always_coinFlip|]. intros _ _ _. lia.
  - apply always_ret. discriminate.
Qed.

(** ** Rounding to a double *)

Lemma pow2_pos (k : Z) : (0 < pow2 k)%Q.
Proof. apply Qpower_0_lt. reflexivity. Qed.

Lemma pow2_nonneg_exponent (k : Z) : 0 <= k -> (pow2 k == inject_Z (2 ^ k))%Q.
Proof. intros Hk. unfold pow2. rewrite Zpower_Qpower by exact Hk. reflexivity. Qed.

Lemma pow2_add (j k : Z) : (pow2 (j + k) == pow2 j * pow2 k)%Q.
Proof. unfold pow2. apply Qpower_plus. discriminate. Qed.

Lemma pow2_opp (k : Z) : (pow2 (- k) == / pow2 k)%Q.
Proof. unfold pow2. apply Qpower_opp. Qed.

Lemma pow2_ge_1 (k : Z) : 0 <= k -> (1 <= pow2 k)%Q.
Proof.
  intros Hk. rewrite pow2_nonneg_exponent by exact Hk.
  change 1%Q with (inject_Z 1). rewrite <- Zle_Qle.
  pose proof (Z.pow_pos_nonneg 2 k ltac:(lia) Hk). lia.
Qed.

Lemma pow2_le (j k : Z) : j <= k -> (pow2 j <= pow2 k)%Q.
Proof.
  intros Hjk. replace k with (j + (k - j)) by lia. rewrite pow2_add.
  pose proof (pow2_pos j). pose proof (pow2_ge_1 (k - j) ltac:(lia)). nra.
Qed.

Lemma pow2_le_1 (k : Z) : k <= 0 -> (pow2 k <= 1)%Q.
Proof. intros Hk. apply (pow2_le k 0 Hk). Qed.

(** An integer is a multiple of every [2^k] with [k <= 0]. *)
Lemma integer_over_pow2 (n k : Z) :
  k <= 0 -> (inject_Z n / pow2 k == inject_Z (n * 2 ^ (- k)))%Q.
Proof.
  intros Hk. unfold Qdiv. rewrite <- pow2_opp.
  rewrite pow2_nonneg_exponent by lia. rewrite inject_Z_mult. reflexivity.
Qed.

Lemma roundHalfEven_bounds (z : Q) :
  (z - (1 # 2) <= inject_Z (roundHalfEven z))%Q /\
  (inject_Z (roundHalfEven z) <= z + (1 # 2))%Q.
Proof.
  unfold roundHalfEven.
  pose proof (Qfloor_le z) as Hlo. pose proof (Qlt_floor z) as Hhi.
  rewrite inject_Z_plus in Hhi. change (inject_Z 1) with 1%Q in Hhi.
  destruct (Qcompare_spec (z - inject_Z (Qfloor z)) (1 # 2)) as [E | E | E].
  - destruct (Z.even (Qfloor z));
      [|rewrite inject_Z_plus; change (inject_Z 1) with 1%Q]; split; lra.
  - split; lra.
  - rewrite inject_Z_plus. change (inject_Z 1) with 1%Q. split; lra.
Qed.

Lemma roundHalfEven_le (z : Q) (m : Z) :
  (z <= inject_Z m)%Q -> roundHalfEven z <= m.
Proof.
  intros Hz. unfold roundHalfEven.
  pose proof (Qfloor_le z) as Hlo. pose proof (Qlt_floor z) as Hhi.
  assert (Hfl : Qfloor z <= m).
  { rewrite <- (Qfloor_Z m). apply Qfloor_resp_le, Hz. }
  assert (Hstrict : (inject_Z (Qfloor z) < z)%Q -> Qfloor z + 1 <= m).
  { intros Hlt. assert (H : (inject_Z (Qfloor z) < inject_Z m)%Q) by lra.
    rewrite <- Zlt_Qlt in H. lia. }
  destruct (Qcompare_spec (z - inject_Z (Qfloor z)) (1 # 2)) as [E | E | E].
  - destruct (Z.even (Qfloor z)); [exact Hfl|]. apply Hstrict. lra.
  - exact Hfl.
  - apply Hstrict. lra.
Qed.

Lemma roundHalfEven_below (z : Q) (m : Z) :
  (z < inject_Z m - (1 # 2))%Q -> roundHalfEven z <= m - 1.
Proof.
  intros Hz.
  pose proof (proj2 (roundHalfEven_bounds z)) as Hhi.
  assert (H : (inject_Z (roundHalfEven z) < inject_Z m)%Q) by lra.
  rewrite <- Zlt_Qlt in H. lia.
Qed.

Lemma roundHalfEven_nonneg (z : Q) : (0 <= z)%Q -> 0 <= roundHalfEven z.
Proof.
  intros Hz.
  assert (Hfl : 0 <= Qfloor z).
  { change 0 with (Qfloor 0). apply Qfloor_resp_le, Hz. }
  unfold roundHalfEven.
  destruct (Qcompare (z - inject_Z (Qfloor z)) (1 # 2)); [destruct (Z.even (Qfloor z))| |]; lia.
Qed.

Lemma binadeOf_le (y : Q) : (0 < y)%Q -> (pow2 (binadeOf y) <= y)%Q.
Proof.
  intros Hy. unfold binadeOf.
  destruct (Qle_bool 1 y) eqn:E.
  - apply Qle_bool_iff in E.
    assert (Hfl : 1 <= Qfloor y).
    { change 1 with (Qfloor 1). apply Qfloor_resp_le, E. }
    rewrite pow2_nonneg_exponent by apply Z.log2_nonneg.
    apply Qle_trans with (inject_Z (Qfloor y)); [|apply Qfloor_le].
    rewrite <- Zle_Qle. apply Z.log2_spec. lia.
  - assert (Hlt : (y < 1)%Q).
    { apply Qnot_le_lt. intros H. apply Qle_bool_iff in H. congruence. }
    rewrite pow2_opp.
    rewrite pow2_nonneg_exponent by apply Z.log2_up_nonneg.
    set (c := Qceiling (/ y)).
    assert (Hinv : (/ y <= inject_Z c)%Q) by apply Qle_ceiling.
    assert (Hipos : (0 < / y)%Q) by (apply Qinv_lt_0_compat, Hy).
    assert (Hc : 0 < c).
    { assert (H : (inject_Z 0 < inject_Z c)%Q) by (change (inject_Z 0) with 0%Q; lra).
      rewrite <- Zlt_Qlt in H. exact H. }
    assert (Hpow : c <= 2 ^ Z.log2_up c).
    { destruct (Z.eq_dec c 1) as [-> | Hne]; [change (Z.log2_up 1) with 0; lia|].
      apply Z.log2_up_spec. lia. }
    assert (Hq : (/ y <= inject_Z (2 ^ Z.log2_up c))%Q).
    { apply Qle_trans with (inject_Z c); [exact Hinv|]. rewrite <- Zle_Qle. exact Hpow. }
    assert (Hppos : (0 < inject_Z (2 ^ Z.log2_up c))%Q) by lra.
    assert (Hone : (1 <= y * inject_Z (2 ^ Z.log2_up c))%Q).
    { rewrite <- (Qmult_inv_r y) by lra.
      apply Qmult_le_l; [exact Hy | exact Hq]. }
    rewrite <- (Qmult_1_l (/ _)). apply Qle_shift_div_r; [exact Hppos | exact Hone].
Qed.

Lemma ulpExponent_nonpos (y : Q) : ulpExponent y <= 0.
Proof. unfold ulpExponent. lia. Qed.

Lemma roundPositive_nonneg (y : Q) : (0 <= y)%Q -> (0 <= roundPositive y)%Q.
Proof.
  intros Hy. unfold roundPositive.
  pose proof (pow2_pos (ulpExponent y)) as Hu.
  apply Qmult_le_0_compat; [|lra].
  change 0%Q with (inject_Z 0). rewrite <- Zle_Qle.
  apply roundHalfEven_nonneg. apply Qle_shift_div_l; [exact Hu | lra].
Qed.

(** Rounding moves a value by at most half a unit in the last place, so by
    at most 1/2. *)
Lemma roundPositive_near (y : Q) : (y - (1 # 2) <= roundPositive y)%Q.
Proof.
  unfold roundPositive.
  pose proof (pow2_pos (ulpExponent y)) as Hu.
  pose proof (pow2_le_1 _ (ulpExponent_nonpos y)) as Hu1.
  pose proof (proj1 (roundHalfEven_bounds (y / pow2 (ulpExponent y)))) as Hlo.
  set (u := pow2 (ulpExponent y)) in *.
  set (n := inject_Z (roundHalfEven (y / u))) in *.
  assert (Hy : (y == y / u * u)%Q) by (field; lra).
  assert (H : ((y / u - (1 # 2)) * u <= n * u)%Q).
  { apply Qmult_le_compat_r; lra. }
  nra.
Qed.

(** Rounding never crosses an integer. *)
Lemma roundPositive_le (y : Q) (n : Z) :
  (y <= inject_Z n)%Q -> (roundPositive y <= inject_Z n)%Q.
Proof.
  intros Hy. unfold roundPositive.
  pose proof (pow2_pos (ulpExponent y)) as Hu.
  pose proof (integer_over_pow2 n _ (ulpExponent_nonpos y)) as Hn.
  set (u := pow2 (ulpExponent y)) in *.
  assert (Hz : (y / u <= inject_Z (n * 2 ^ (- ulpExponent y)))%Q).
  { rewrite <- Hn. unfold Qdiv. apply Qmult_le_compat_r; [exact Hy|].
    apply Qlt_le_weak, Qinv_lt_0_compat, Hu. }
  apply roundHalfEven_le in Hz. rewrite Zle_Qle in Hz. rewrite <- Hn in Hz.
  assert (H : (inject_Z (roundHalfEven (y / u)) * u <= inject_Z n / u * u)%Q).
  { apply Qmult_le_compat_r; lra. }
  assert (Hdiv : (inject_Z n / u * u == inject_Z n)%Q) by (field; lra).
  lra.
Qed.

(** A draw below 1 is at most [1 - 2^-53]; its product with a positive
    integer then rounds to less than that integer. *)
Lemma roundPositive_scaled_lt (r : Q) (n : Z) :
  (0 < r)%Q -> (r <= 1 - pow2 (-53))%Q -> 1 <= n ->
  (roundPositive (r * inject_Z n) < inject_Z n)%Q.
Proof.
  intros Hr0 Hr1 Hn.
  assert (HnQ : (1 <= inject_Z n)%Q).
  { change 1%Q with (inject_Z 1). rewrite <- Zle_Qle. exact Hn. }
  set (y := (r * inject_Z n)%Q).
  assert (Hy0 : (0 < y)%Q) by (unfold y; nra).
  pose proof (pow2_pos (-53)) as H53.
  assert (Hgap : (inject_Z n * pow2 (-53) <= inject_Z n - y)%Q) by (unfold y; nra).
  assert (Hylt : (y < inject_Z n)%Q) by nra.
  pose proof (binadeOf_le y Hy0) as Hbin.
  pose proof (pow2_pos (ulpExponent y)) as Hu.
  assert (Hhalf : ((1 # 2) * pow2 (ulpExponent y) < inject_Z n - y)%Q).
  { unfold ulpExponent.
    destruct (Z.max_spec (-1074) (Z.min (binadeOf y) 52 - 52)) as [[_ ->] | [_ ->]].
    - apply Qle_lt_trans with ((1 # 2) * pow2 (binadeOf y - 52))%Q.
      + apply Qmult_le_l; [reflexivity|]. apply pow2_le. lia.
      + replace (binadeOf y - 52) with (binadeOf y + (-52)) by lia.
        rewrite pow2_add.
        assert (E : ((1 # 2) * pow2 (-52) == pow2 (-53))%Q) by reflexivity.
        pose proof (pow2_pos (binadeOf y)). 
        assert (E' : ((1 # 2) * (pow2 (binadeOf y) * pow2 (-52)) == pow2 (binadeOf y) * pow2 (-53))%Q).
        { rewrite <- E. ring. }
        rewrite E'. nra.
    - assert (E : ((1 # 2) * pow2 (-1074) < pow2 (-53))%Q) by reflexivity.
      nra. }
  unfold roundPositive. fold y.
  pose proof (integer_over_pow2 n _ (ulpExponent_nonpos y)) as Hint.
  set (u := pow2 (ulpExponent y)) in *.
  set (N := n * 2 ^ (- ulpExponent y)) in *.
  assert (Hz : (y / u < inject_Z N - (1 # 2))%Q).
  { rewrite <- Hint. apply Qlt_shift_div_r; [exact Hu|].
    assert (Hdiv : (inject_Z n / u * u == inject_Z n)%Q) by (field; lra).
    nra. }
  apply roundHalfEven_below in Hz.
  assert (HzQ : (inject_Z (roundHalfEven (y / u)) <= inject_Z N - 1)%Q).
  { rewrite Zle_Qle in Hz. unfold Z.sub in Hz. rewrite inject_Z_plus in Hz.
    change (inject_Z (Z.opp 1)) with (Qopp 1) in Hz. lra. }
  rewrite <- Hint in HzQ.
  assert (H : (inject_Z (roundHalfEven (y / u)) * u <= (inject_Z n / u - 1) * u)%Q).
  { apply Qmult_le_compat_r; lra. }
  assert (Hdiv : ((inject_Z n / u - 1) * u == inject_Z n - u)%Q) by (field; lra).
  lra.
Qed.

Lemma roundDouble_nonneg (y : Q) : (0 <= y)%Q -> (0 <= roundDouble y)%Q.
Proof.
  intros Hy. unfold roundDouble.
  destruct (Qcompare_spec y 0) as [E | E | E].
  - lra.
  - lra.
  - apply roundPositive_nonneg, Hy.
Qed.

Lemma roundDouble_near (y : Q) : (0 < y)%Q -> (y - (1 # 2) <= roundDouble y)%Q.
Proof.
  intros Hy. unfold roundDouble.
  destruct (Qcompare_spec y 0) as [E | E | E]; [lra | lra | apply roundPositive_near].
Qed.

Lemma roundDouble_le (y : Q) (n : Z) :
  (0 < y)%Q -> (y <= inject_Z n)%Q -> (roundDouble y <= inject_Z n)%Q.
Proof.
  intros Hy Hn. unfold roundDouble.
  destruct (Qcompare_spec y 0) as [E | E | E]; [lra | lra | apply roundPositive_le, Hn].
Qed.

Lemma roundDouble_scaled_lt (r : Q) (n : Z) :
  (0 <= r)%Q -> (r <= 1 - pow2 (-53))%Q -> 1 <= n ->
  (roundDouble (r * inject_Z n) < inject_Z n)%Q.
Proof.
  intros Hr0 Hr1 Hn.
  assert (HnQ : (1 <= inject_Z n)%Q).
  { change 1%Q with (inject_Z 1). rewrite <- Zle_Qle. exact Hn. }
  unfold roundDouble.
  destruct (Qcompare_spec (r * inject_Z n) 0) as [E | E | E].
  - lra.
  - nra.
  - apply roundPositive_scaled_lt; [|exact Hr1 | exact Hn].
    destruct (Qlt_le_dec 0 r) as [H | H]; [exact H|]. nra.
Qed.

(** ** The weighted walk over the tables *)

Lemma totalWeightOf_sum (ws : list Z) : totalWeightOf ws = weightSum ws.
Proof.
  unfold totalWeightOf.
  assert (H : forall acc, fold_left Z.add ws acc = acc + weightSum ws).
  { induction ws as [|w ws IH]; intros acc; simpl; [lia|]. rewrite IH. lia. }
  rewrite H. lia.
Qed.

Lemma remainderAfter_0 (w : Z) (rest : list Z) (x : Q) :
  (remainderAfter (w :: rest) x 0 == x - inject_Z w)%Q.
Proof.
  unfold remainderAfter. simpl. rewrite Z.add_0_r. reflexivity.
Qed.

Lemma remainderAfter_cons (w : Z) (rest : list Z) (x : Q) (k : nat) :
  (remainderAfter (w :: rest) x (S k) == remainderAfter rest (x - inject_Z w) k)%Q.
Proof.
  unfold remainderAfter.
  change (take (S (S k)) (w :: rest)) with (w :: take (S k) rest).
  change (weightSum (w :: take (S k) rest)) with (w + weightSum (take (S k) rest)).
  rewrite inject_Z_plus. ring.
Qed.

(** The loop stops at the first candidate whose remainder is not positive;
    when there is none it leaves [tableIndex] at 0. *)
Lemma weightedIndex_first (ws : list Z) : forall (x : Q) (i : nat),
  (exists k, (k < length ws)%nat /\ weightedIndex ws x i = (i + k)%nat /\
             (remainderAfter ws x k <= 0)%Q /\
             forall j, (j < k)%nat -> (0 < remainderAfter ws x j)%Q)
  \/ (weightedIndex ws x i = 0%nat /\
      forall j, (j < length ws)%nat -> (0 < remainderAfter ws x j)%Q).
Proof.
  induction ws as [|w rest IH]; intros x i.
  - right. split; [reflexivity|]. simpl. intros j Hj. lia.
  - simpl weightedIndex.
    destruct (Qle_bool (x - inject_Z w) 0) eqn:E.
    + left. exists 0%nat. repeat split.
      * simpl. lia.
      * lia.
      * rewrite remainderAfter_0. apply Qle_bool_iff. exact E.
      * intros j Hj. lia.
    + assert (Hpos : (0 < x - inject_Z w)%Q).
      { apply Qnot_le_lt. intros Hle. apply Qle_bool_iff in Hle. congruence. }
      destruct (IH (x - inject_Z w)%Q (S i)) as [(k & Hk & Hidx & Hle & Hbefore) | [Hidx Hall]].
      * left. exists (S k). repeat split.
        -- simpl. lia.
        -- rewrite Hidx. lia.
        -- rewrite remainderAfter_cons. exact Hle.
        -- intros [|j] Hj.
           ++ rewrite remainderAfter_0. exact Hpos.
           ++ rewrite remainderAfter_cons. apply Hbefore. lia.
      * right. split; [exact Hidx|].
        intros [|j] Hj.
        -- rewrite remainderAfter_0. exact Hpos.
        -- rewrite remainderAfter_cons. apply Hall. simpl in Hj. lia.
Qed.

Lemma weightedIndex_lt (ws : list Z) (x : Q) :
  ws <> [] -> (weightedIndex ws x 0 < length ws)%nat.
Proof.
  intros Hne.
  destruct (weightedIndex_first ws x 0) as [(k & Hk & Hidx & _) | [Hidx _]].
  - rewrite Hidx. lia.
  - rewrite Hidx. destruct ws; [congruence | simpl; lia].
Qed.

Lemma pickTable_member (m : MasteryData) (o : Operation) (tables : list Z) (g : Rng) :
  tables <> [] -> In (pickTable m o tables g).1 tables.
Proof.
  intros Hne.
  change (pickTable m o tables g).1
    with (nth (weightedIndex (weightsOf m o tables)
                 (roundDouble (g 0%nat * inject_Z (totalWeightOf (weightsOf m o tables)))) 0)
              tables 0).
  apply nth_In.
  rewrite <- (length_map (fun t => 11 - scoreOf m (masteryKey o t)) tables).
  apply weightedIndex_lt. unfold weightsOf. destruct tables; [congruence | discriminate].
Qed.

Lemma always_pickTable (m : MasteryData) (o : Operation) (tables : list Z) :
  tables <> [] -> always (pickTable m o tables) (fun t => In t tables).
Proof.
  intros Hne g Hg. split.
  - apply pickTable_member, Hne.
  - apply unitDraws_advance, Hg.
Qed.

Lemma scoreOf_range (m : MasteryData) (key : string) :
  masteryInRange m -> 0 <= scoreOf m key <= 10.
Proof.
  intros Hm. unfold scoreOf.
  destruct (m !! key) as [v|] eqn:E; simpl; [|lia].
  apply (Hm key v E).
Qed.

Lemma weightSum_pos (ws : list Z) :
  Forall (fun w => 1 <= w) ws -> ws <> [] -> 0 < weightSum ws.
Proof.
  intros Hall Hne. destruct ws as [|w ws]; [congruence|].
  assert (Hnn : forall l, Forall (fun w => 1 <= w) l -> 0 <= weightSum l).
  { induction 1; simpl; lia. }
  inversion Hall; subst. simpl. specialize (Hnn ws ltac:(assumption)). lia.
Qed.

Lemma masteryKey_keyText (o : Operation) (t : Z) : masteryKey o t = keyText o t.
Proof. destruct o; reflexivity. Qed.

(** C4. For every configured table set and mastery mapping (scores in
    [0,10]) and every draw of [Math.random()]: the weight of table [t] is
    [11 - v] when the score [v] is stored under the key of [t] (the name of
    the operation, a dash, [t] in decimal) and 11 when nothing is stored
    there, so it lies in [1,11]; the draw times the sum of the weights, as a
    double, lies in [0, totalWeight); and the table chosen is the first one,
    in set order, at which that value minus the weights so far is not
    positive. *)
Theorem weighted_table_selection (m : MasteryData) (o : Operation)
    (tables : list Z) (g : Rng) :
  tables <> [] -> masteryInRange m -> drawRange (g 0%nat) ->
  let ws := weightsOf m o tables in
  let random := roundDouble (g 0%nat * inject_Z (totalWeightOf ws)) in
  (forall j t, tables !! j = Some t ->
     exists w, ws !! j = Some w /\ 1 <= w <= 11 /\
               (forall v, m !! keyText o t = Some v -> w = 11 - v) /\
               (m !! keyText o t = None -> w = 11)) /\
  totalWeightOf ws = weightSum ws /\
  (0 <= random)%Q /\ (random < inject_Z (totalWeightOf ws))%Q /\
  exists i, tables !! i = Some (pickTable m o tables g).1 /\
            (remainderAfter ws random i <= 0)%Q /\
            forall j, (j < i)%nat -> (0 < remainderAfter ws random j)%Q.
Proof.
  intros Hne Hm [Hr0 Hr1] ws random.
  assert (Hw : forall j t, tables !! j = Some t ->
             ws !! j = Some (11 - scoreOf m (masteryKey o t))).
  { intros j t Hj. unfold ws, weightsOf.
    change (map ?f tables) with (f <$> tables).
    rewrite list_lookup_fmap, Hj. reflexivity. }
  assert (Hall : Forall (fun w => 1 <= w) ws).
  { unfold ws, weightsOf. apply Forall_forall. intros w Hin.
    apply list_elem_of_In, in_map_iff in Hin as (t & <- & _).
    pose proof (scoreOf_range m (masteryKey o t) Hm). lia. }
  assert (Hwne : ws <> []).
  { unfold ws, weightsOf. destruct tables; [congruence | discriminate]. }
  assert (Hlen : length ws = length tables) by apply length_map.
  pose proof (weightSum_pos ws Hall Hwne) as Hpos.
  pose proof (totalWeightOf_sum ws) as Htot.
  assert (Hq : (0 < inject_Z (totalWeightOf ws))%Q).
  { change 0%Q with (inject_Z 0). rewrite <- Zlt_Qlt. lia. }
  assert (Hx0 : (0 <= random)%Q).
  { unfold random. apply roundDouble_nonneg.
    apply Qmult_le_0_compat; [exact Hr0 | apply Qlt_le_weak; exact Hq]. }
  assert (Hx1 : (random < inject_Z (totalWeightOf ws))%Q).
  { unfold random. apply roundDouble_scaled_lt; [exact Hr0 | exact Hr1 | lia]. }
  split; [|split; [exact Htot | split; [exact Hx0 | split; [exact Hx1|]]]].
  - intros j t Hj. exists (11 - scoreOf m (masteryKey o t)).
    split; [apply Hw, Hj | split; [|split]].
    + pose proof (scoreOf_range m (masteryKey o t) Hm). lia.
    + intros v Hv. unfold scoreOf. rewrite masteryKey_keyText, Hv. reflexivity.
    + intros Hnone. unfold scoreOf. rewrite masteryKey_keyText, Hnone. reflexivity.
  - assert (Hpick : (pickTable m o tables g).1 = nth (weightedIndex ws random 0) tables 0)
      by reflexivity.
    destruct (weightedIndex_first ws random 0) as [(k & Hk & Hidx & Hle & Hbefore) | [_ Hallpos]].
    + exists k. split; [|split; assumption].
      rewrite Hpick, Hidx. simpl.
      destruct (lookup_lt_is_Some_2 tables k ltac:(lia)) as [t Ht].
      rewrite Ht. f_equal. symmetry. apply nth_lookup_Some, Ht.
    + exfalso.
      assert (Hlast : (length ws - 1 < length ws)%nat).
      { destruct ws; [congruence | simpl; lia]. }
      specialize (Hallpos _ Hlast). unfold remainderAfter in Hallpos.
      rewrite take_ge in Hallpos by lia.
      rewrite <- Htot in Hallpos.
      apply (Qlt_irrefl random). eapply Qlt_trans; [exact Hx1|].
      apply (Qplus_lt_l _ _ (- inject_Z (totalWeightOf ws))).
      rewrite Qplus_opp_r. exact Hallpos.
Qed.

(** ** The exercises built by one attempt *)

(** Run the next monadic step with the lemma [lem] describing what it returns. *)
Ltac draw lem := eapply always_bind; [apply lem | cbv beta].

Lemma always_pickOp (ops : list Operation) :
  ops <> [] -> always (pickOp ops) (fun o => In o ops).
Proof.
  intros Hne. unfold pickOp.
  draw (always_randomBelow (Z.of_nat (length ops))).
  - destruct ops; [congruence | simpl; lia].
  - intros k Hk. apply always_ret. apply nth_In. lia.
Qed.

Lemma availableOps_tables (s : UserSettings) (o : Operation) :
  In o (availableOps s) -> selectedTablesOf s o <> [].
Proof.
  unfold availableOps. intros Hin.
  apply in_app_or in Hin as [Hin | Hin].
  - destruct (multiplicationTables s) eqn:E; simpl in Hin; [contradiction|].
    destruct Hin as [<- | []]. simpl. rewrite E. discriminate.
  - destruct (divisionTables s) eqn:E; simpl in Hin; [contradiction|].
    destruct Hin as [<- | []]. simpl. rewrite E. discriminate.
Qed.

Lemma always_orderedProduct (table other : Z) :
  always (orderedProduct table other)
    (fun e => op e = multiplication /\ display e = None /\ a e * b e = result e).
Proof.
  unfold orderedProduct.
  draw always_coinFlip.
  intros [] _; apply always_ret; simpl; auto.
Qed.

Lemma always_multiplicationExercise (table score : Z) :
  always (multiplicationExercise table score)
    (fun e => op e = multiplication /\
       match display e with
       | None => a e * b e = result e
       | Some d =>
           a e = table /\ 0 <= b e <= 10 /\ isChallenge e = Some true /\
           exists c, 1 <= c <= 10 /\ result e = (a e * b e) + c /\
                     d = compoundDisplay (a e) (b e) c
       end).
Proof.
  unfold multiplicationExercise.
  draw always_challengeGate.
  intros [] _.
  - draw always_coinFlip.
    intros [] _.
    + draw (always_randomBelow 5); [lia|].
      intros k Hk. apply always_ret. simpl. auto.
    + draw (always_randomBelow 11); [lia|].
      intros b0 Hb. draw (always_randomBelow 10); [lia|].
      intros k Hk. apply always_ret. simpl.
      repeat split; try lia. exists (1 + k). repeat split; lia.
  - destruct (score <? 3).
    + draw always_randomBelow; [simpl; lia|].
      intros k _. eapply always_weaken; [apply always_orderedProduct|].
      intros e (Hop & Hd & Hprod). rewrite Hd. auto.
    + draw (always_randomBelow 11); [lia|].
      intros k _. eapply always_weaken; [apply always_orderedProduct|].
      intros e (Hop & Hd & Hprod). rewrite Hd. auto.
Qed.

Lemma always_divisionExercise (table score : Z) :
  always (divisionExercise table score)
    (fun e => op e = division /\ b e = table /\ a e = b e * result e /\
       ((isChallenge e = Some true /\ 8 < score /\ 11 <= result e <= 15) \/
        (isChallenge e = None /\ score < 3 /\ In (result e) [1; 2; 5; 10]) \/
        (isChallenge e = None /\ 3 <= score /\ 0 <= result e <= 10))).
Proof.
  unfold divisionExercise.
  draw always_challengeGate.
  intros [] Hgate.
  - draw (always_randomBelow 5); [lia|].
    intros k Hk. apply always_ret. simpl.
    repeat split; try reflexivity. left. specialize (Hgate eq_refl).
    repeat split; lia.
  - destruct (score <? 3) eqn:E.
    + draw always_randomBelow; [simpl; lia|].
      intros k Hk. apply always_ret. simpl in Hk |- *.
      repeat split; try reflexivity. right; left.
      repeat split; [lia|].
      assert (Hcases : k = 0 \/ k = 1 \/ k = 2 \/ k = 3) by lia.
      destruct Hcases as [-> | [-> | [-> | ->]]]; simpl; auto.
    + draw (always_randomBelow 11); [lia|].
      intros q Hq. apply always_ret. simpl.
      repeat split; try reflexivity. right; right.
      repeat split; lia.
Qed.

Lemma always_candidate (s : UserSettings) (m : MasteryData) :
  availableOps s <> [] -> always (candidate s m) (exerciseShape s m).
Proof.
  intros Hne. unfold candidate.
  draw always_pickOp; [exact Hne|].
  intros o Ho. apply availableOps_tables in Ho.
  draw always_pickTable; [exact Ho|].
  intros table Htable. destruct o; simpl in Htable.
  - eapply always_weaken; [apply always_multiplicationExercise|].
    intros e [Hop Hshape]. unfold exerciseShape, multiplicationShape. rewrite Hop.
    destruct (display e); [|exact Hshape].
    destruct Hshape as (Ha & Hrest). split; [rewrite Ha; exact Htable | exact Hrest].
  - eapply always_weaken; [apply always_divisionExercise|].
    intros e (Hop & Hb & Hrest). unfold exerciseShape, divisionShape. rewrite Hop.
    destruct Hrest as [Hdiv Hband]. subst table.
    split; [exact Hdiv | split; [exact Htable | exact Hband]].
Qed.

Lemma always_attemptLoop (s : UserSettings) (m : MasteryData) (previous : option Exercise)
    (P : Exercise -> Prop) (n : nat) :
  always (candidate s m) P ->
  always (attemptLoop s m previous n)
    (fun r => forall e, r = Some e -> P e /\ accepted previous e = true).
Proof.
  intros Hcand. induction n as [|n IH]; simpl.
  - apply always_ret. discriminate.
  - draw Hcand.
    intros next Hnext. destruct (accepted previous next) eqn:E.
    + apply always_ret. intros e [= <-]. auto.
    + exact IH.
Qed.

Lemma always_generateExercise (s : UserSettings) (m : MasteryData) (previous : option Exercise) :
  always (generateExercise s m previous)
    (fun r => forall e, r = Some e -> exerciseShape s m e /\ accepted previous e = true).
Proof.
  unfold generateExercise.
  destruct (length (availableOps s) =? 0)%nat eqn:E.
  - apply always_ret. discriminate.
  - apply always_attemptLoop, always_candidate.
    intros Hnil. rewrite Hnil in E. discriminate.
Qed.

Lemma always_candidate_op (s : UserSettings) (m : MasteryData) :
  availableOps s <> [] -> always (candidate s m) (fun e => In (op e) (availableOps s)).
Proof.
  intros Hne. unfold candidate.
  draw always_pickOp; [exact Hne|].
  intros o Ho. pose proof (availableOps_tables s o Ho) as Ht.
  draw always_pickTable; [exact Ht|].
  intros table _. destruct o.
  - eapply always_weaken; [apply always_multiplicationExercise|].
    intros e [-> _]. exact Ho.
  - eapply always_weaken; [apply always_divisionExercise|].
    intros e [-> _]. exact Ho.
Qed.

Lemma always_and {A} (m : Rand A) (P Q : A -> Prop) :
  always m P -> always m Q -> always m (fun x => P x /\ Q x).
Proof.
  intros HP HQ g Hg. destruct (HP g Hg), (HQ g Hg). auto.
Qed.

(** ** Exercises returned by [generateExercise] *)

(** C5. Every division exercise that [generateExercise] returns has
    [a = b * result]; its [b] is a table of the configured division set and,
    that set not containing 0, is not 0; the quotient lies in [11,15] in the
    challenge band, in {1,2,5,10} in the simple band and in [0,10] in the
    normal band. *)
Theorem division_exercise_shape (s : UserSettings) (m : MasteryData)
    (previous : option Exercise) (g : Rng) (e : Exercise) :
  unitDraws g ->
  ~ In 0 (divisionTables s) ->
  (generateExercise s m previous g).1 = Some e ->
  op e = division ->
  divisionShape s m e /\ b e <> 0.
Proof.
  intros Hg Hzero Hgen Hop.
  destruct (always_generateExercise s m previous g Hg) as [Hshape _].
  destruct (Hshape e Hgen) as [He _].
  unfold exerciseShape in He. rewrite Hop in He.
  split; [exact He|].
  destruct He as (_ & Hin & _). intros Hb. rewrite Hb in Hin. contradiction.
Qed.

(** C6. Every multiplication exercise that [generateExercise] returns has
    [a * b = result], except the compound challenge (the one carrying a
    [display] string), for which [result = (a * b) + c] with [a] the selected
    table, [b] in [0,10] and [c] in [1,10]. *)
Theorem multiplication_exercise_shape (s : UserSettings) (m : MasteryData)
    (previous : option Exercise) (g : Rng) (e : Exercise) :
  unitDraws g ->
  (generateExercise s m previous g).1 = Some e ->
  op e = multiplication ->
  multiplicationShape s e.
Proof.
  intros Hg Hgen Hop.
  destruct (always_generateExercise s m previous g Hg) as [Hshape _].
  destruct (Hshape e Hgen) as [He _].
  unfold exerciseShape in He. rewrite Hop in He. exact He.
Qed.

Lemma availableOps_nonempty (s : UserSettings) :
  multiplicationTables s <> [] \/ divisionTables s <> [] -> availableOps s <> [].
Proof.
  unfold availableOps. intros [H | H].
  - destruct (multiplicationTables s); [congruence | discriminate].
  - destruct (divisionTables s); [congruence|].
    destruct (multiplicationTables s); discriminate.
Qed.

Lemma attemptLoop_S (s : UserSettings) (m : MasteryData) (previous : option Exercise) (n : nat) :
  attemptLoop s m previous (S n) =
  bind (candidate s m)
    (fun next => if accepted previous next then ret (Some next)
                 else attemptLoop s m previous n).
Proof. reflexivity. Qed.

(** C9. When a table set is not empty, [generateExercise] without a
    previous exercise returns the candidate of its first attempt; so it can
    only return null when a previous exercise was passed. *)
Theorem first_candidate_without_previous (s : UserSettings) (m : MasteryData) (g : Rng) :
  multiplicationTables s <> [] \/ divisionTables s <> [] ->
  (generateExercise s m None g).1 = Some (candidate s m g).1 /\
  forall previous g', (generateExercise s m previous g').1 = None -> previous <> None.
Proof.
  intros Hne. apply availableOps_nonempty in Hne.
  assert (Hlen : (length (availableOps s) =? 0)%nat = false).
  { destruct (availableOps s); [congruence | reflexivity]. }
  assert (Hfirst : forall g0, (generateExercise s m None g0).1 = Some (candidate s m g0).1).
  { intros g0. unfold generateExercise. rewrite Hlen, attemptLoop_S. unfold bind.
    destruct (candidate s m g0) as [next g1]. reflexivity. }
  split; [apply Hfirst|].
  intros previous g' Hnone ->. rewrite Hfirst in Hnone. discriminate.
Qed.

(** With a single division table every candidate has the divisor of the
    previous exercise, so none of the 20 attempts is accepted. *)
Lemma single_division_table_exhausts (t : Z) (ec : option ExerciseCount)
    (m : MasteryData) (p : Exercise) (g : Rng) :
  unitDraws g -> b p = t ->
  (generateExercise {| multiplicationTables := []; divisionTables := [t];
                       exerciseCount := ec |} m (Some p) g).1 = None.
Proof.
  intros Hg Hb.
  set (s := {| multiplicationTables := []; divisionTables := [t]; exerciseCount := ec |}).
  assert (Hne : availableOps s <> []) by discriminate.
  assert (Hcand : always (candidate s m) (fun e => b e = t)).
  { eapply always_weaken;
      [apply (always_and _ _ _ (always_candidate s m Hne) (always_candidate_op s m Hne))|].
    intros e [Hshape Hop]. simpl in Hop. destruct Hop as [Hop | []].
    unfold exerciseShape in Hshape. rewrite <- Hop in Hshape.
    destruct Hshape as (_ & [Hin | []] & _). congruence. }
  destruct (always_attemptLoop s m (Some p) _ 20 Hcand g Hg) as [Hloop _].
  change (generateExercise s m (Some p) g) with (attemptLoop s m (Some p) 20 g).
  destruct (attemptLoop s m (Some p) 20 g).1 as [e|] eqn:E; [|reflexivity].
  destruct (Hloop e eq_refl) as [He Hacc]. exfalso.
  unfold accepted in Hacc. rewrite He, Hb, Z.eqb_refl in Hacc.
  rewrite andb_false_r in Hacc. discriminate.
Qed.

(** A session over the single division table 5: once the first question is
    answered no second question can be generated, and the practice screen is
    left without an exercise. *)
Example single_division_table_session_stalls :
  let st0 := initialState (Some onlyDivisionBy5) None in
  let asked := (run (manualSession []) st0 exampleDraws).1 in
  let answered := (run (manualSession ["10"]) st0 exampleDraws).1 in
  currentExercise asked = Some (mkExercise 50 5 division 10 None None) /\
  mode answered = ModePractice /\ currentExercise answered = None /\
  total (stats answered) = 1.
Proof. vm_compute. repeat split; reflexivity. Qed.

(** C2 (the code departs from it). With the previous exercise 5 : 5 = 1 and
    only the division table 5, the first candidate is 50 : 5 = 10.  It
    differs from the previous exercise in [a] and in [result], yet it is not
    accepted, and neither is any later candidate: the call returns null. *)
Theorem candidate_differing_in_two_fields_rejected :
  (candidate onlyDivisionBy5 ∅ exampleDraws).1 = mkExercise 50 5 division 10 None None /\
  differsSomewhere fiveByFive (candidate onlyDivisionBy5 ∅ exampleDraws).1 = true /\
  accepted (Some fiveByFive) (candidate onlyDivisionBy5 ∅ exampleDraws).1 = false /\
  (generateExercise onlyDivisionBy5 ∅ (Some fiveByFive) exampleDraws).1 = None.
Proof. vm_compute. repeat split; reflexivity. Qed.

(** ** Scoring an answer *)

Lemma handleAnswer_accepted (r : Render) (answer : option string) (st : AppState) (ex : Exercise) :
  r_currentExercise r = Some ex -> r_feedback r = None ->
  let isCorrect := isCorrectAnswer answer ex in
  let key := masteryKey (op ex) (tableKeyOf (r_settings r) ex) in
  let st' := handleAnswer r answer st in
  feedback st' = Some (if isCorrect then FeedbackCorrect else FeedbackIncorrect) /\
  mastery st' = updateMastery key isCorrect (mastery st) /\
  stats st' = {| correct := correct (r_stats r) + (if isCorrect then 1 else 0);
                 total := total (r_stats r) + 1 |} /\
  history st' = history st ++ [{| exercise := ex; answeredCorrectly := isCorrect |}] /\
  timerRef st' = None /\
  timeouts st' = timeouts st ++ [{| s_render := r; s_nextStats := stats st' |}] /\
  mode st' = mode st /\ settings st' = settings st /\
  currentExercise st' = currentExercise st /\ userAnswer st' = userAnswer st /\
  timeLeft st' = timeLeft st.
Proof.
  intros Hex Hfb. unfold handleAnswer. rewrite Hex, Hfb. simpl.
  repeat split; reflexivity.
Qed.

Lemma handleAnswer_ignored (r : Render) (answer : option string) (st : AppState) :
  r_currentExercise r = None \/ r_feedback r <> None ->
  handleAnswer r answer st = st.
Proof.
  intros [Hex | Hfb]; unfold handleAnswer.
  - rewrite Hex. reflexivity.
  - destruct (r_currentExercise r); [|reflexivity].
    destruct (r_feedback r); [reflexivity | congruence].
Qed.

Lemma nextScoreOf_range (isCorrect : bool) (s : Z) :
  0 <= s <= 10 -> 0 <= nextScoreOf isCorrect s <= 10.
Proof. unfold nextScoreOf. destruct isCorrect; lia. Qed.

(** The mastery map keeps all its scores in [0,10] whatever [handleAnswer] does. *)
Lemma handleAnswer_masteryInRange (r : Render) (answer : option string) (st : AppState) :
  masteryInRange (mastery st) -> masteryInRange (mastery (handleAnswer r answer st)).
Proof.
  intros Hm.
  destruct (r_currentExercise r) as [ex|] eqn:Hex;
    [destruct (r_feedback r) as [fb|] eqn:Hfb|].
  - rewrite handleAnswer_ignored; [exact Hm | right; congruence].
  - destruct (handleAnswer_accepted r answer st ex Hex Hfb) as (_ & -> & _).
    unfold updateMastery. apply map_Forall_insert_2; [|exact Hm].
    apply nextScoreOf_range, scoreOf_range, Hm.
  - rewrite handleAnswer_ignored; [exact Hm | left; exact Hex].
Qed.

(** C3. When the score [s] of the credited key lies in [0,10] (a missing
    key counting as 0), the score after [handleAnswer] lies in [0,10]: it is
    [s + 1] capped at 10 after a correct answer and [s - 1] floored at 0 after
    an incorrect answer or a timeout (a null answer). *)
Theorem mastery_score_stays_in_range (r : Render) (answer : option string)
    (st : AppState) (ex : Exercise) :
  r_currentExercise r = Some ex -> r_feedback r = None ->
  let key := masteryKey (op ex) (tableKeyOf (r_settings r) ex) in
  let s := scoreOf (mastery st) key in
  let s' := scoreOf (mastery (handleAnswer r answer st)) key in
  0 <= s <= 10 ->
  0 <= s' <= 10 /\
  mastery (handleAnswer r answer st) !! key = Some s' /\
  (isCorrectAnswer answer ex = true -> s' = if s <? 10 then s + 1 else 10) /\
  (isCorrectAnswer answer ex = false -> s' = if 0 <? s then s - 1 else 0) /\
  (answer = None -> isCorrectAnswer answer ex = false) /\
  (mastery st !! key = None -> s = 0).
Proof.
  intros Hex Hfb key s s' Hs.
  destruct (handleAnswer_accepted r answer st ex Hex Hfb) as (_ & Hm & _).
  assert (Hs' : s' = nextScoreOf (isCorrectAnswer answer ex) s).
  { unfold s'. rewrite Hm. unfold updateMastery, scoreOf at 1.
    fold key. rewrite lookup_insert_eq. reflexivity. }
  assert (Hlook : mastery (handleAnswer r answer st) !! key = Some s').
  { rewrite Hs', Hm. unfold updateMastery. fold key. apply lookup_insert_eq. }
  split; [rewrite Hs'; apply nextScoreOf_range, Hs|].
  split; [exact Hlook|].
  split; [|split; [|split]].
  - intros Hc. rewrite Hs', Hc. unfold nextScoreOf.
    destruct (s <? 10) eqn:E; lia.
  - intros Hc. rewrite Hs', Hc. unfold nextScoreOf.
    destruct (0 <? s) eqn:E; lia.
  - intros ->. reflexivity.
  - intros Hnone. unfold s, scoreOf. rewrite Hnone. reflexivity.
Qed.

Lemma includes_In (l : list Z) (x : Z) : includes l x = true <-> In x l.
Proof.
  unfold includes. rewrite existsb_exists. split.
  - intros (y & Hin & Heq). apply Z.eqb_eq in Heq. subst. exact Hin.
  - intros Hin. exists x. split; [exact Hin | apply Z.eqb_refl].
Qed.

Lemma tableKeyOf_credited (s : UserSettings) (e : Exercise) :
  tableKeyOf s e = creditedTable s e.
Proof.
  unfold tableKeyOf, creditedTable. destruct (op e); [|reflexivity].
  destruct (includes (multiplicationTables s) (a e)) eqn:E.
  - apply includes_In, list_elem_of_In in E.
    destruct (decide _); [reflexivity | contradiction].
  - destruct (decide _) as [Hin|]; [|reflexivity].
    apply list_elem_of_In, includes_In in Hin. congruence.
Qed.

Lemma masteryKey_inj (o1 o2 : Operation) (t1 t2 : Z) :
  masteryKey o1 t1 = masteryKey o2 t2 <-> o1 = o2 /\ t1 = t2.
Proof.
  split; [|intros [-> ->]; reflexivity].
  unfold masteryKey. destruct o1, o2; simpl; intros H; try discriminate.
  - injection H as H. split; [reflexivity | exact (inj pretty _ _ H)].
  - injection H as H. split; [reflexivity | exact (inj pretty _ _ H)].
Qed.

(** C7. An answered exercise credits one key of the mastery object, the
    name of its operation, a dash and a table in decimal: the table is field
    [a] when the exercise is a multiplication and [a] is a configured
    multiplication table, field [b] when it is a multiplication and [a] is
    not, and field [b] for every division.  The score under that key takes
    its step and nothing else changes, so the score of every other operation
    and table is what it was. *)
Theorem credited_mastery_key (r : Render) (answer : option string)
    (st : AppState) (ex : Exercise) :
  r_currentExercise r = Some ex -> r_feedback r = None ->
  let isCorrect := isCorrectAnswer answer ex in
  let before := mastery st in
  let after := mastery (handleAnswer r answer st) in
  (op ex = multiplication -> In (a ex) (multiplicationTables (r_settings r)) ->
     creditedAt ("multiplication-" +:+ pretty (a ex)) isCorrect before after) /\
  (op ex = multiplication -> ~ In (a ex) (multiplicationTables (r_settings r)) ->
     creditedAt ("multiplication-" +:+ pretty (b ex)) isCorrect before after) /\
  (op ex = division ->
     creditedAt ("division-" +:+ pretty (b ex)) isCorrect before after) /\
  (forall o t, (o, t) <> (op ex, creditedTable (r_settings r) ex) ->
     after !! keyText o t = before !! keyText o t) /\
  after !! keyText (op ex) (creditedTable (r_settings r) ex)
  = Some (nextScoreOf isCorrect
            (default 0 (before !! keyText (op ex) (creditedTable (r_settings r) ex)))).
Proof.
  intros Hex Hfb isCorrect before after.
  destruct (handleAnswer_accepted r answer st ex Hex Hfb) as (_ & Hm & _).
  fold after before isCorrect in Hm.
  rewrite tableKeyOf_credited, masteryKey_keyText in Hm.
  unfold updateMastery, scoreOf in Hm.
  split; [|split; [|split; [|split]]].
  - intros Hop Hin. unfold creditedAt. rewrite Hm. unfold creditedTable.
    rewrite Hop. apply list_elem_of_In in Hin.
    destruct (decide _); [reflexivity | contradiction].
  - intros Hop Hin. unfold creditedAt. rewrite Hm. unfold creditedTable.
    rewrite Hop. rewrite <- list_elem_of_In in Hin.
    destruct (decide _); [contradiction | reflexivity].
  - intros Hop. unfold creditedAt. rewrite Hm. unfold creditedTable.
    rewrite Hop. reflexivity.
  - intros o t Hother. rewrite Hm. apply lookup_insert_ne.
    rewrite <- !masteryKey_keyText. intros Heq.
    apply masteryKey_inj in Heq as [<- <-]. congruence.
  - rewrite Hm. apply lookup_insert_eq.
Qed.

(** ** Reading the typed answer *)

Lemma isDecimalDigit_not_space (c : ascii) :
  isDecimalDigit c = true -> isWhiteSpace c = false.
Proof.
  unfold isDecimalDigit, isWhiteSpace. intros H.
  apply andb_true_iff in H as [H1 H2]. apply Nat.leb_le in H1, H2.
  apply not_true_iff_false. intros Hw.
  rewrite !orb_true_iff, andb_true_iff, !Nat.leb_le, !Nat.eqb_eq in Hw. lia.
Qed.

Lemma isDecimalDigit_not_sign (c : ascii) :
  isDecimalDigit c = true -> (c =? "-")%char = false /\ (c =? "+")%char = false.
Proof.
  intros H. split; apply Ascii.eqb_neq; intros ->; vm_compute in H; discriminate.
Qed.

Lemma radixDigit_decimal (c : ascii) :
  isDecimalDigit c = true ->
  radixDigit 10 c = Some (Z.of_nat (nat_of_ascii c) - 48).
Proof.
  unfold isDecimalDigit, radixDigit, digitValue. intros H.
  apply andb_true_iff in H as [H1 H2]. apply Nat.leb_le in H1, H2.
  assert (E : (48 <=? Z.of_nat (nat_of_ascii c)) && (Z.of_nat (nat_of_ascii c) <=? 57) = true).
  { apply andb_true_iff. split; apply Z.leb_le; lia. }
  rewrite E.
  assert (E2 : (Z.of_nat (nat_of_ascii c) - 48 <? 10) = true) by (apply Z.ltb_lt; lia).
  rewrite E2. reflexivity.
Qed.

Lemma radixDigit_not_decimal (c : ascii) :
  isDecimalDigit c = false -> radixDigit 10 c = None.
Proof.
  unfold isDecimalDigit, radixDigit, digitValue. intros H.
  apply andb_false_iff in H.
  assert (E : (48 <=? Z.of_nat (nat_of_ascii c)) && (Z.of_nat (nat_of_ascii c) <=? 57) = false).
  { apply andb_false_iff.
    destruct H as [H | H]; apply Nat.leb_gt in H; [left | right]; apply Z.leb_gt; lia. }
  rewrite E.
  destruct ((97 <=? Z.of_nat (nat_of_ascii c)) && (Z.of_nat (nat_of_ascii c) <=? 122)) eqn:E1.
  - apply andb_true_iff in E1 as [E1 _]. apply Z.leb_le in E1.
    assert (E2 : (Z.of_nat (nat_of_ascii c) - 87 <? 10) = false) by (apply Z.ltb_ge; lia).
    rewrite E2. reflexivity.
  - destruct ((65 <=? Z.of_nat (nat_of_ascii c)) && (Z.of_nat (nat_of_ascii c) <=? 90)) eqn:E3;
      [|reflexivity].
    apply andb_true_iff in E3 as [E3 _]. apply Z.leb_le in E3.
    assert (E2 : (Z.of_nat (nat_of_ascii c) - 55 <? 10) = false) by (apply Z.ltb_ge; lia).
    rewrite E2. reflexivity.
Qed.

Lemma readDigits_decimal (ds rest : string) : forall acc,
  allDecimal ds = true -> digitsEnd rest = true ->
  readDigits 10 (ds +:+ rest) acc = decimalValueFrom acc ds.
Proof.
  induction ds as [|c ds IH]; intros acc Hds Hrest; simpl.
  - destruct rest as [|c rest]; [reflexivity|]. simpl in Hrest |- *.
    rewrite radixDigit_not_decimal; [reflexivity|].
    apply negb_true_iff. exact Hrest.
  - simpl in Hds. apply andb_true_iff in Hds as [Hc Hds].
    rewrite (radixDigit_decimal c Hc), (Z.mul_comm acc 10).
    apply IH; assumption.
Qed.

Lemma stripHexPrefix_decimal (s : string) :
  hexPrefixed s = false -> stripHexPrefix s = (10, s).
Proof.
  unfold hexPrefixed, stripHexPrefix.
  destruct s as [|c0 [|c1 rest]]; try reflexivity.
  intros ->. reflexivity.
Qed.

(** Decimal digits followed by something that is not a digit are read as the
    number the digits write, unless the string begins with [0x] or [0X]. *)
Lemma parseInt_leading_digits (ds rest : string) :
  ds <> "" -> allDecimal ds = true -> digitsEnd rest = true ->
  hexPrefixed (ds +:+ rest) = false ->
  parseInt (ds +:+ rest) = Some (decimalValue ds).
Proof.
  intros Hne Hds Hrest Hhex.
  destruct ds as [|c ds]; [congruence|].
  pose proof Hds as Hds'. simpl in Hds'. apply andb_true_iff in Hds' as [Hc _].
  unfold parseInt.
  assert (Htrim : trimStart (String c ds +:+ rest) = String c ds +:+ rest).
  { simpl. rewrite (isDecimalDigit_not_space c Hc). reflexivity. }
  rewrite Htrim.
  assert (Hsign : stripSign (String c ds +:+ rest) = (1, String c ds +:+ rest)).
  { simpl. destruct (isDecimalDigit_not_sign c Hc) as [-> ->]. reflexivity. }
  rewrite Hsign, (stripHexPrefix_decimal _ Hhex).
  assert (Hstart : startsWithDigit 10 (String c ds +:+ rest) = true).
  { simpl. rewrite (radixDigit_decimal c Hc). apply bool_decide_eq_true. eauto. }
  rewrite Hstart, (readDigits_decimal _ _ 0 Hds Hrest), Z.mul_1_l. reflexivity.
Qed.

Example parseInt_12abc : parseInt "12abc" = Some 12.
Proof. reflexivity. Qed.

Example parseInt_hex : parseInt "0x" = None /\ parseInt "0xA" = Some 10.
Proof. split; reflexivity. Qed.

(** C10 as stated fails: for the question 0 x 5 the answer [0x] starts with
    the digits of the result 0 and goes on with a character that is not a
    digit, and it is judged incorrect. *)
Lemma digits_then_x_judged_incorrect :
  currentExercise askingZeroTimesFive = Some zeroTimesFive /\
  userAnswer askingZeroTimesFive = "0" +:+ "x" /\
  allDecimal "0" = true /\ decimalValue "0" = result zeroTimesFive /\
  noDecimal "x" = true /\
  feedback (handleSubmit askingZeroTimesFive) = Some FeedbackIncorrect.
Proof. vm_compute. repeat split; reflexivity. Qed.

(** C10, amended. A submitted non-empty answer is judged correct exactly
    when [parseInt] of it equals the result of the current exercise.  In
    particular an answer made of decimal digits that write the result,
    followed by anything that does not start with a digit, is judged correct
    provided the answer does not begin with [0x] or [0X]. *)
Theorem answer_judged_by_parseInt (st : AppState) (ex : Exercise) :
  currentExercise st = Some ex -> feedback st = None -> userAnswer st <> "" ->
  let st' := handleSubmit st in
  (feedback st' = Some FeedbackCorrect <-> parseInt (userAnswer st) = Some (result ex)) /\
  (feedback st' = Some FeedbackIncorrect <-> parseInt (userAnswer st) <> Some (result ex)) /\
  (forall ds rest,
     userAnswer st = ds +:+ rest -> ds <> "" -> allDecimal ds = true ->
     decimalValue ds = result ex -> digitsEnd rest = true ->
     hexPrefixed (userAnswer st) = false ->
     feedback st' = Some FeedbackCorrect).
Proof.
  intros Hex Hfb Hne st'.
  assert (Hst' : st' = handleAnswer (renderOf st) (Some (userAnswer st)) st).
  { unfold st', handleSubmit. rewrite bool_decide_eq_false_2 by exact Hne. reflexivity. }
  destruct (handleAnswer_accepted (renderOf st) (Some (userAnswer st)) st ex Hex Hfb)
    as (Hfeedback & _).
  rewrite <- Hst' in Hfeedback. simpl in Hfeedback.
  assert (Hiff : feedback st' = Some FeedbackCorrect <->
                 parseInt (userAnswer st) = Some (result ex)).
  { rewrite Hfeedback. case_bool_decide; split; intros; congruence. }
  split; [exact Hiff | split].
  - rewrite Hfeedback. case_bool_decide; split; intros; congruence.
  - intros ds rest Heq Hds Hall Hval Hend Hhex. apply Hiff.
    rewrite Heq in Hhex |- *. rewrite <- Hval.
    apply parseInt_leading_digits; assumption.
Qed.

(** ** The session *)


Lemma run_cons (ev : Event) (evs : list Event) (st : AppState) (g : Rng) :
  run (ev :: evs) st g = run evs (step ev st g).1 (step ev st g).2.
Proof. simpl. unfold bind. destruct (step ev st g). reflexivity. Qed.

Lemma step_TypeAnswer (s : string) (st : AppState) (g : Rng) :
  step (TypeAnswer s) st g = (if inputEnabled st then setUserAnswer s st else st, g).
Proof. unfold step. destruct (mode st); reflexivity. Qed.

Lemma step_PressEnter (st : AppState) (g : Rng) :
  step PressEnter st g = (if submitEnabled st then handleSubmit st else st, g).
Proof. unfold step. destruct (mode st); reflexivity. Qed.

Lemma step_TimeoutFires (st : AppState) (g : Rng) :
  step TimeoutFires st g = timeoutFires st g.
Proof. unfold step. destruct (mode st); reflexivity. Qed.

Lemma step_IntervalFires (st : AppState) (g : Rng) :
  step IntervalFires st g = (intervalTick st, g).
Proof. unfold step. destruct (mode st); reflexivity. Qed.

Lemma run_answerRound (s : string) (st : AppState) (g : Rng) :
  run (answerRound s) st g =
  timeoutFires
    (let st1 := if inputEnabled st then setUserAnswer s st else st in
     if submitEnabled st1 then handleSubmit st1 else st1) g.
Proof.
  unfold answerRound.
  rewrite run_cons, step_TypeAnswer, run_cons, step_PressEnter, run_cons, step_TimeoutFires.
  simpl. destruct (timeoutFires _ g). reflexivity.
Qed.


(** A typed answer to the question on screen: the answer is scored against
    that question, and one second later the session either ends or goes on
    with a new exercise generated with the answered one as [previous]. *)
Lemma answerRound_accepted (s : string) (st : AppState) (ex : Exercise) (g : Rng) :
  mode st = ModePractice -> currentExercise st = Some ex -> feedback st = None ->
  timeouts st = [] -> s <> "" -> allDecimal s = true ->
  let st' := (run (answerRound s) st g).1 in
  stats st' = {| correct := correct (stats st) + (if isCorrectAnswer (Some s) ex then 1 else 0);
                 total := total (stats st) + 1 |} /\
  history st' = history st ++ [{| exercise := ex; answeredCorrectly := isCorrectAnswer (Some s) ex |}] /\
  timeouts st' = [] /\ settings st' = settings st /\
  if 10 <=? total (stats st) + 1
  then mode st' = ModeResults /\ feedback st' <> None
  else mode st' = ModePractice /\ feedback st' = None /\
       currentExercise st' = (generateExercise (settings st) (mastery st) (Some ex) g).1.
Proof.
  intros Hmode Hex Hfb Hto Hne Hdec.
  assert (Hen : inputEnabled st = true).
  { unfold inputEnabled, practiceShown. rewrite Hmode, Hex, Hfb. reflexivity. }
  rewrite run_answerRound. cbv zeta. rewrite Hen.
  assert (Hen' : submitEnabled (setUserAnswer s st) = true).
  { unfold submitEnabled. change (inputEnabled (setUserAnswer s st)) with (inputEnabled st).
    rewrite Hen. exact Hdec. }
  rewrite Hen'. unfold handleSubmit.
  rewrite bool_decide_eq_false_2 by exact Hne.
  change (userAnswer (setUserAnswer s st)) with s.
  destruct (handleAnswer_accepted (renderOf (setUserAnswer s st)) (Some s)
              (setUserAnswer s st) ex Hex Hfb)
    as (Hf2 & _ & Hs2 & Hh2 & _ & Hto2 & Hm2 & Hset2 & _).
  remember (handleAnswer (renderOf (setUserAnswer s st)) (Some s) (setUserAnswer s st))
    as st2 eqn:Hst2.
  change (timeouts (setUserAnswer s st)) with (timeouts st) in Hto2.
  rewrite Hto in Hto2. simpl app in Hto2.
  unfold timeoutFires. rewrite Hto2. unfold advance.
  simpl s_nextStats. simpl s_render. rewrite Hs2.
  simpl in Hs2, Hh2, Hm2, Hset2. cbv zeta. simpl.
  destruct (10 <=? total (stats st) + 1) eqn:E.
  - simpl. rewrite Hs2, Hh2, Hf2, Hset2.
    repeat split; try reflexivity. discriminate.
  - unfold bind. rewrite Hex.
    destruct (generateExercise (settings st) (mastery st) (Some ex) g) as [next g'].
    simpl. rewrite Hs2, Hh2, Hm2, Hset2. rewrite Hmode.
    repeat split; reflexivity.
Qed.





Lemma step_ClickStart (st : AppState) (g : Rng) :
  mode st <> ModePractice -> step ClickStart st g = startPractice st g.
Proof. unfold step. destruct (mode st); [reflexivity | congruence | reflexivity]. Qed.



(** The callback of an answer is never cancelled.  When the tenth answer of
    a session is followed, before its delay has passed, by a return to the
    settings and a new start, the callback runs in the new session and shows
    the results before any question of that session is answered. *)
Lemma pending_callback_ends_new_session :
  let st := (run (manualSession (repeat "1" 9)
                    ++ [TypeAnswer "1"; PressEnter; ClickBack; ClickStart; TimeoutFires])
               twentyOfFive exampleDraws).1 in
  mode st = ModeResults /\ total (stats st) = 0 /\ history st = [].
Proof. vm_compute. repeat split; reflexivity. Qed.

(** ** The question timer *)

(** The handler called by the interval belongs to the render that started
    the timer; when that render had no current exercise, or was showing
    feedback, the tick at which the countdown expires only stops the timer. *)
Lemma intervalTick_stale (st : AppState) (r : Render) :
  timerRef st = Some r ->
  r_currentExercise r = None \/ r_feedback r <> None ->
  let st' := intervalTick st in
  (timerRef st' = Some r \/ timerRef st' = None) /\
  mode st' = mode st /\ settings st' = settings st /\ mastery st' = mastery st /\
  currentExercise st' = currentExercise st /\ userAnswer st' = userAnswer st /\
  feedback st' = feedback st /\ stats st' = stats st /\ history st' = history st /\
  timeouts st' = timeouts st.
Proof.
  intros Href Hstale. unfold intervalTick. rewrite Href.
  destruct (Qle_bool (timeLeft st) (1 # 20)).
  - rewrite (handleAnswer_ignored r None _ Hstale). simpl. tauto.
  - simpl. rewrite Href. tauto.
Qed.

Lemma intervalTick_idle (st : AppState) :
  timerRef st = None -> intervalTick st = st.
Proof. intros Href. unfold intervalTick. rewrite Href. reflexivity. Qed.

Lemma run_ticks (n : nat) : forall (st : AppState) (g : Rng),
  run (repeat IntervalFires n) st g = (Nat.iter n intervalTick st, g).
Proof.
  induction n as [|n IH]; intros st g.
  - reflexivity.
  - change (repeat IntervalFires (S n)) with (IntervalFires :: repeat IntervalFires n).
    rewrite run_cons, step_IntervalFires, IH. cbn [fst snd].
    rewrite Nat.iter_succ_r. reflexivity.
Qed.

(** However long the first question of a session stays unanswered, the
    timer never submits anything for it when the session was started from a
    screen without a current exercise (a freshly loaded app) or with feedback
    showing (the results of the previous session). *)
Lemma first_question_never_times_out (st0 : AppState) (g : Rng) (n : nat) :
  mode st0 <> ModePractice ->
  multiplicationTables (settings st0) <> [] \/ divisionTables (settings st0) <> [] ->
  currentExercise st0 = None \/ feedback st0 <> None ->
  let started := (startPractice st0 g).1 in
  let st := (run (ClickStart :: repeat IntervalFires n) st0 g).1 in
  feedback st = None /\ stats st = {| correct := 0; total := 0 |} /\
  history st = [] /\ mastery st = mastery st0 /\
  timeouts st = timeouts st0 /\ currentExercise st = currentExercise started.
Proof.
  intros Hmode Hne Hstale started st.
  unfold st. rewrite run_cons, (step_ClickStart _ _ Hmode), run_ticks. simpl fst.
  fold started.
  assert (Hstart : timerRef started = Some (renderOf st0) /\
            feedback started = None /\ stats started = {| correct := 0; total := 0 |} /\
            history started = [] /\ mastery started = mastery st0 /\
            timeouts started = timeouts st0).
  { unfold started, startPractice.
    assert (E : ((length (multiplicationTables (settings st0)) =? 0)
                 && (length (divisionTables (settings st0)) =? 0))%nat = false).
    { apply andb_false_iff.
      destruct Hne as [H | H]; [left | right]; apply Nat.eqb_neq;
        intros Hlen; apply H; apply length_zero_iff_nil; exact Hlen. }
    rewrite E. unfold bind. destruct (generateExercise _ _ None g).
    simpl. repeat split; reflexivity. }
  assert (Hiter : forall k,
            let stk := Nat.iter k intervalTick started in
            (timerRef stk = Some (renderOf st0) \/ timerRef stk = None) /\
            feedback stk = feedback started /\ stats stk = stats started /\
            history stk = history started /\ mastery stk = mastery started /\
            timeouts stk = timeouts started /\
            currentExercise stk = currentExercise started).
  { induction k as [|k IH]; simpl.
    - destruct Hstart as (Href & _). repeat split; auto.
    - destruct IH as ([Href | Href] & Hf & Hs & Hh & Hm & Ht & Hc).
      + destruct (intervalTick_stale _ _ Href Hstale)
          as (Href' & _ & _ & Hm' & Hc' & _ & Hf' & Hs' & Hh' & Ht').
        repeat split; congruence.
      + rewrite (intervalTick_idle _ Href). repeat split; auto. }
  destruct (Hiter n) as (_ & Hf & Hs & Hh & Hm & Ht & Hc).
  destruct Hstart as (_ & Hf0 & Hs0 & Hh0 & Hm0 & Ht0).
  repeat split; congruence.
Qed.

(** C8 (the code departs from it). A freshly loaded app with table 5
    selected asks 10 x 5.  After 299 ticks the countdown stands at 0.05 and
    the timer still runs; the 300th tick stops the timer and sets the
    countdown to 0, but the null answer reaches the handler of the render
    that preceded the session, which has no current exercise: no feedback is
    shown, the statistics and the history stay empty, no mastery score
    changes and no advance is scheduled. *)
Theorem timeout_on_first_question_scores_nothing :
  let asked := (run [ClickStart] twentyOfFive exampleDraws).1 in
  let late := (run (ClickStart :: repeat IntervalFires 299) twentyOfFive exampleDraws).1 in
  let expired := (run (ClickStart :: repeat IntervalFires 300) twentyOfFive exampleDraws).1 in
  mode asked = ModePractice /\ currentExercise asked = Some tenTimesFive /\
  timeLeft asked = 15%Q /\ timerRef asked = Some (renderOf twentyOfFive) /\
  r_currentExercise (renderOf twentyOfFive) = None /\
  (timeLeft late == 1 # 20)%Q /\ timerRef late = Some (renderOf twentyOfFive) /\
  timeLeft expired = 0%Q /\ timerRef expired = None /\
  mode expired = ModePractice /\ currentExercise expired = Some tenTimesFive /\
  feedback expired = None /\ stats expired = {| correct := 0; total := 0 |} /\
  history expired = [] /\ mastery expired = ∅ /\ timeouts expired = [].
Proof. vm_compute. repeat split; reflexivity. Qed.

(** On a later question the null answer reaches the handler of the render in
    which the previous question was answered.  Here 10 x 5 is answered
    correctly and 5 x 1 is left to time out: the timeout is scored against
    10 x 5 again, and the statistics are rebuilt from those of that render,
    so the total stays 1 and the correct answer is no longer counted. *)
Lemma timeout_on_later_question_scores_previous :
  let answered := (run (manualSession ["50"]) twentyOfFive exampleDraws).1 in
  let expired :=
    (run (manualSession ["50"] ++ repeat IntervalFires 300) twentyOfFive exampleDraws).1 in
  currentExercise answered = Some (mkExercise 5 1 multiplication 5 None None) /\
  history answered = [{| exercise := tenTimesFive; answeredCorrectly := true |}] /\
  stats answered = {| correct := 1; total := 1 |} /\
  mastery answered !! "multiplication-5" = Some 1 /\
  currentExercise expired = Some (mkExercise 5 1 multiplication 5 None None) /\
  feedback expired = Some FeedbackIncorrect /\
  history expired = [{| exercise := tenTimesFive; answeredCorrectly := true |};
                     {| exercise := tenTimesFive; answeredCorrectly := false |}] /\
  stats expired = {| correct := 0; total := 1 |} /\
  mastery expired !! "multiplication-5" = Some 0.
Proof. vm_compute. repeat split; reflexivity. Qed.

(** ** What every reachable state satisfies *)

Lemma handleAnswer_settings (r : Render) (answer : option string) (st : AppState) :
  settings (handleAnswer r answer st) = settings st.
Proof.
  unfold handleAnswer. destruct (r_currentExercise r); [|reflexivity].
  destruct (r_feedback r); reflexivity.
Qed.

Lemma intervalTick_wellFormed (st : AppState) :
  wellFormed st -> wellFormed (intervalTick st).
Proof.
  intros [Hs Hm]. unfold intervalTick.
  destruct (timerRef st) as [r|]; [|split; assumption].
  destruct (Qle_bool (timeLeft st) (1 # 20)); [|split; assumption].
  split.
  - change (settings (setTimeLeft 0 ?x)) with (settings x).
    rewrite handleAnswer_settings. exact Hs.
  - change (mastery (setTimeLeft 0 ?x)) with (mastery x).
    apply handleAnswer_masteryInRange. exact Hm.
Qed.

Lemma timeoutFires_wellFormed (st : AppState) (g : Rng) :
  wellFormed st -> wellFormed (timeoutFires st g).1.
Proof.
  intros Hwf. unfold timeoutFires.
  destruct (timeouts st) as [|s rest]; [exact Hwf|].
  unfold advance. destruct (10 <=? total (s_nextStats s)); [exact Hwf|].
  unfold bind. destruct (generateExercise _ _ _ g). exact Hwf.
Qed.

Lemma startPractice_wellFormed (st : AppState) (g : Rng) :
  wellFormed st -> wellFormed (startPractice st g).1.
Proof.
  intros Hwf. unfold startPractice.
  destruct ((length (multiplicationTables (settings st)) =? 0)
            && (length (divisionTables (settings st)) =? 0))%nat; [exact Hwf|].
  unfold bind. destruct (generateExercise _ _ None g). exact Hwf.
Qed.

Lemma handleSubmit_wellFormed (st : AppState) :
  wellFormed st -> wellFormed (handleSubmit st).
Proof.
  intros [Hs Hm]. unfold handleSubmit. case_bool_decide; [split; assumption|].
  split; [rewrite handleAnswer_settings; exact Hs|].
  apply handleAnswer_masteryInRange, Hm.
Qed.

Lemma toggleTable_no_zero (n : Z) (o : Operation) (prev : UserSettings) :
  tableButtonEnabled o n = true ->
  ~ In 0 (divisionTables prev) -> ~ In 0 (divisionTables (toggleTable n o prev)).
Proof.
  intros Hen Hprev. destruct o; [exact Hprev|].
  unfold tableButtonEnabled in Hen. apply andb_true_iff in Hen as [_ Hn].
  apply negb_true_iff, Z.eqb_neq in Hn.
  unfold toggleTable. simpl.
  destruct (includes (divisionTables prev) n); intros Hin; apply Hprev.
  - apply list_elem_of_In, list_elem_of_filter in Hin as [_ Hin].
    apply list_elem_of_In. exact Hin.
  - apply (Permutation_in _ (merge_sort_Permutation Z.le _)) in Hin.
    apply in_app_or in Hin as [Hin | [Heq | []]]; [exact Hin | congruence].
Qed.

Lemma step_wellFormed (ev : Event) (st : AppState) (g : Rng) :
  wellFormed st -> wellFormed (step ev st g).1.
Proof.
  intros Hwf. destruct ev.
  - unfold step. destruct (mode st); try exact Hwf. simpl.
    destruct (tableButtonEnabled o n) eqn:Hen; [|exact Hwf].
    destruct Hwf as [Hs Hm]. split; [|exact Hm].
    apply toggleTable_no_zero; assumption.
  - unfold step. destruct (mode st); try exact Hwf; apply startPractice_wellFormed, Hwf.
  - rewrite step_TypeAnswer. simpl. destruct (inputEnabled st); exact Hwf.
  - rewrite step_PressEnter. simpl.
    destruct (submitEnabled st); [apply handleSubmit_wellFormed|]; exact Hwf.
  - rewrite step_IntervalFires. apply intervalTick_wellFormed, Hwf.
  - rewrite step_TimeoutFires. apply timeoutFires_wellFormed, Hwf.
  - unfold step. destruct (mode st); simpl; destruct (practiceShown st); exact Hwf.
  - unfold step. destruct (mode st); exact Hwf.
Qed.

(** Whatever the user does from the default state, 0 never becomes a
    division table and every mastery score stays in [0,10]. *)
Lemma reachable_wellFormed (evs : list Event) : forall (st : AppState) (g : Rng),
  wellFormed st -> wellFormed (run evs st g).1.
Proof.
  induction evs as [|ev evs IH]; intros st g Hwf.
  - exact Hwf.
  - rewrite run_cons. apply IH, step_wellFormed, Hwf.
Qed.

Lemma initialState_wellFormed : wellFormed (initialState None None).
Proof.
  split; [intros []|]. unfold masteryInRange. apply map_Forall_empty.
Qed.

(** ** The properties at concrete inputs *)

Lemma inUnit_bounds (q : Q) : inUnit q = true -> (0 <= q)%Q /\ (q < 1)%Q.
Proof.
  unfold inUnit. intros H. apply andb_true_iff in H as [H0 H1]. split.
  - apply Qle_bool_iff. exact H0.
  - apply Qnot_le_lt. intros Hle. apply Qle_bool_iff in Hle.
    rewrite Hle in H1. discriminate.
Qed.

Lemma unitDraws_drawsOf (l : list Q) : forallb inUnit l = true -> unitDraws (drawsOf l).
Proof.
  intros Hall n. unfold drawsOf.
  destruct (nth_in_or_default n l 0%Q) as [Hin | ->].
  - apply inUnit_bounds. rewrite forallb_forall in Hall. apply Hall, Hin.
  - apply inUnit_bounds. reflexivity.
Qed.

Lemma unitDraws_exampleDraws : unitDraws exampleDraws.
Proof.
  intros n. unfold exampleDraws, Qle, Qlt. simpl.
  pose proof (Nat.mod_upper_bound (n * 37 + 11) 100 ltac:(lia)). lia.
Qed.

Lemma someMastery_inRange : masteryInRange someMastery.
Proof.
  unfold someMastery, masteryInRange.
  repeat (apply map_Forall_insert_2; [lia|]). apply map_Forall_empty.
Qed.


Lemma mastery_score_stays_in_range_witness :
  let st := asking tenTimesFive "50" in
  scoreOf (mastery st) "multiplication-5" = 9 /\
  scoreOf (mastery (handleSubmit st)) "multiplication-5" = 10.
Proof.
  split; [reflexivity|].
  destruct (mastery_score_stays_in_range (renderOf (asking tenTimesFive "50"))
              (Some "50") (asking tenTimesFive "50") tenTimesFive)
    as (_ & _ & Hcorrect & _).
  - reflexivity.
  - reflexivity.
  - vm_compute. split; discriminate.
  - exact (Hcorrect eq_refl).
Defined.

Lemma weighted_table_selection_witness :
  weightsOf someMastery multiplication [2; 5] !! 0%nat = Some 11 /\
  weightsOf someMastery multiplication [2; 5] !! 1%nat = Some 2 /\
  (pickTable someMastery multiplication [2; 5] (drawsOf [9 # 10])).1 = 5.
Proof.
  destruct (weighted_table_selection someMastery multiplication [2; 5] (drawsOf [9 # 10]))
    as (Hweights & _ & _ & _ & i & Hi & Hle & _).
  - discriminate.
  - exact someMastery_inRange.
  - split; apply Qle_bool_iff; reflexivity.
  - destruct (Hweights 0%nat 2 eq_refl) as (w0 & Hw0 & _ & _ & Hmissing).
    destruct (Hweights 1%nat 5 eq_refl) as (w1 & Hw1 & _ & Hstored & _).
    assert (H2 : someMastery !! keyText multiplication 2 = None)
      by (vm_compute; reflexivity).
    assert (H5 : someMastery !! keyText multiplication 5 = Some 9)
      by (vm_compute; reflexivity).
    rewrite (Hmissing H2) in Hw0. rewrite (Hstored 9 H5) in Hw1.
    split; [exact Hw0 | split; [exact Hw1|]].
    destruct i as [|[|i]].
    + apply Qle_bool_iff in Hle. vm_compute in Hle. discriminate.
    + change ([2; 5] !! 1%nat) with (Some 5) in Hi. congruence.
    + change ([2; 5] !! S (S i)) with (@None Z) in Hi. discriminate.
Defined.

(** The draw 0.8 is the double just above 4/5.  Over five tables of weight
    11 its exact product with 55 lies above 44, the double nearest to that
    product is 44, and the fourth table is chosen. *)
Lemma scaled_draw_is_rounded :
  let r := (3602879701896397 # 4503599627370496)%Q in
  (inject_Z 44 < r * inject_Z 55)%Q /\
  (roundDouble (r * inject_Z 55) == inject_Z 44)%Q /\
  (pickTable ∅ multiplication [1; 2; 3; 4; 5] (drawsOf [r])).1 = 4.
Proof. vm_compute. repeat split; reflexivity. Qed.

Lemma division_exercise_shape_witness :
  let e := mkExercise 52 4 division 13 None (Some true) in
  divisionShape twoOperations someMastery e /\ b e <> 0.
Proof.
  apply (division_exercise_shape twoOperations someMastery None
           (drawsOf [6 # 10; 9 # 10; 9 # 10; 5 # 10])).
  - apply unitDraws_drawsOf. reflexivity.
  - simpl. lia.
  - vm_compute. reflexivity.
  - reflexivity.
Defined.

Lemma multiplication_exercise_shape_witness :
  multiplicationShape twoOperations
    (mkExercise 5 3 multiplication 22 (Some (compoundDisplay 5 3 7)) (Some true)).
Proof.
  apply (multiplication_exercise_shape twoOperations someMastery None
           (drawsOf [1 # 10; 9 # 10; 9 # 10; 1 # 10; 3 # 10; 65 # 100])).
  - apply unitDraws_drawsOf. reflexivity.
  - vm_compute. reflexivity.
  - reflexivity.
Defined.

Lemma credited_mastery_key_witness :
  let st := asking tenTimesFive "50" in
  let after := mastery (handleAnswer (renderOf st) (Some "50") st) in
  mastery st !! "multiplication-5" = Some 9 /\
  after !! "multiplication-5" = Some 10 /\
  after !! "multiplication-10" = None /\
  after !! "division-4" = Some 9.
Proof.
  destruct (credited_mastery_key (renderOf (asking tenTimesFive "50")) (Some "50")
              (asking tenTimesFive "50") tenTimesFive)
    as (_ & Hb & _).
  - reflexivity.
  - reflexivity.
  - cbv zeta. rewrite (Hb eq_refl ltac:(simpl; lia)).
    repeat split; vm_compute; reflexivity.
Defined.

Lemma first_candidate_without_previous_witness :
  (generateExercise twoOperations someMastery None exampleDraws).1 =
  Some (candidate twoOperations someMastery exampleDraws).1.
Proof.
  apply (first_candidate_without_previous twoOperations someMastery exampleDraws).
  left. discriminate.
Defined.

Lemma answer_judged_by_parseInt_witness :
  feedback (handleSubmit (asking (mkExercise 2 6 multiplication 12 None None) "12abc"))
  = Some FeedbackCorrect.
Proof.
  destruct (answer_judged_by_parseInt
              (asking (mkExercise 2 6 multiplication 12 None None) "12abc")
              (mkExercise 2 6 multiplication 12 None None))
    as (_ & _ & Hdigits).
  - reflexivity.
  - reflexivity.
  - discriminate.
  - apply (Hdigits "12" "abc"); try reflexivity. discriminate.
Defined.

(** * Further properties *)

(** ** Selecting tables ([toggleTable]) *)

Lemma selectedTablesOf_toggleTable (n : Z) (o : Operation) (s : UserSettings) :
  selectedTablesOf (toggleTable n o s) o =
  if includes (selectedTablesOf s o) n
  then filter (fun k => k <> n) (selectedTablesOf s o)
  else merge_sort Z.le (selectedTablesOf s o ++ [n]).
Proof. destruct o; reflexivity. Qed.

Lemma In_merge_sort (l : list Z) (x : Z) : In x (merge_sort Z.le l) <-> In x l.
Proof.
  split; intros H.
  - exact (Permutation_in _ (merge_sort_Permutation Z.le l) H).
  - exact (Permutation_in _ (Permutation_sym (merge_sort_Permutation Z.le l)) H).
Qed.

Lemma In_filter_ne (l : list Z) (n x : Z) :
  In x (filter (fun k => k <> n) l) <-> x <> n /\ In x l.
Proof.
  rewrite <- !list_elem_of_In.
  exact (list_elem_of_filter (fun k => k <> n) l x).
Qed.

Lemma toggled_membership (n : Z) (o : Operation) (s : UserSettings) :
  (In n (selectedTablesOf (toggleTable n o s) o) <-> ~ In n (selectedTablesOf s o)) /\
  (forall k, k <> n ->
     (In k (selectedTablesOf (toggleTable n o s) o) <-> In k (selectedTablesOf s o))).
Proof.
  rewrite selectedTablesOf_toggleTable.
  destruct (includes (selectedTablesOf s o) n) eqn:E.
  - apply includes_In in E. repeat split.
    + intros Hin. apply In_filter_ne in Hin. tauto.
    + intros Hnot. contradiction.
    + intros Hin. apply In_filter_ne in Hin. tauto.
    + intros Hin. apply In_filter_ne. tauto.
  - assert (Hnot : ~ In n (selectedTablesOf s o)).
    { intros Hin. apply includes_In in Hin. congruence. }
    repeat split.
    + intros _. exact Hnot.
    + intros _. apply In_merge_sort, in_or_app. right. left. reflexivity.
    + intros Hin. apply In_merge_sort, in_app_or in Hin as [Hin | [Heq | []]];
        [exact Hin | congruence].
    + intros Hin. apply In_merge_sort, in_or_app. left. exact Hin.
Qed.

(** X1. Clicking a table button flips the membership of that table in the
    set of its operation and of no other table; the set of the other
    operation and [exerciseCount] stay as they are. *)
Theorem toggleTable_flips_membership (n : Z) (o : Operation) (s : UserSettings) :
  (In n (selectedTablesOf (toggleTable n o s) o) <-> ~ In n (selectedTablesOf s o)) /\
  (forall k, k <> n ->
     (In k (selectedTablesOf (toggleTable n o s) o) <-> In k (selectedTablesOf s o))) /\
  (forall o', o' <> o ->
     selectedTablesOf (toggleTable n o s) o' = selectedTablesOf s o') /\
  exerciseCount (toggleTable n o s) = exerciseCount s.
Proof.
  destruct (toggled_membership n o s) as [Hn Hk].
  split; [exact Hn|]. split; [exact Hk|]. split.
  - intros o' Ho'. destruct o, o'; try congruence; reflexivity.
  - destruct o; reflexivity.
Qed.

Lemma ascending_NoDup (l : list Z) : ascending l -> NoDup l.
Proof.
  induction 1 as [|x l Hl IH Hx]; constructor; [|exact IH].
  intros Hin. rewrite Forall_forall in Hx. specialize (Hx x Hin). lia.
Qed.

Lemma ascending_filter (P : Z -> Prop) `{forall x, Decision (P x)} (l : list Z) :
  ascending l -> ascending (filter P l).
Proof.
  induction 1 as [|x l Hl IH Hx]; [constructor|].
  rewrite filter_cons. destruct (decide (P x)); [|exact IH].
  constructor; [exact IH|].
  rewrite Forall_forall in Hx |- *. intros y Hy.
  apply list_elem_of_filter in Hy as [_ Hy]. apply Hx, Hy.
Qed.

Lemma ascending_of_sorted (l : list Z) :
  StronglySorted Z.le l -> NoDup l -> ascending l.
Proof.
  induction 1 as [|x l Hl IH Hx]; intros Hnd; [constructor|].
  apply NoDup_cons in Hnd as [Hx' Hnd].
  constructor; [apply IH, Hnd|].
  rewrite Forall_forall in Hx |- *. intros y Hy.
  specialize (Hx y Hy). assert (x <> y) by (intros ->; contradiction). lia.
Qed.

Lemma ascending_ext (l1 l2 : list Z) :
  ascending l1 -> ascending l2 -> (forall x, In x l1 <-> In x l2) -> l1 = l2.
Proof.
  intros H1 H2 Hsame.
  apply (StronglySorted_unique_strong Z.lt); try assumption.
  - intros x1 x2 _ _ ? ?. lia.
  - apply NoDup_Permutation; [apply ascending_NoDup, H1 | apply ascending_NoDup, H2 |].
    intros x. rewrite !list_elem_of_In. apply Hsame.
Qed.

Lemma ascending_merge_sort_snoc (l : list Z) (n : Z) :
  ascending l -> ~ In n l -> ascending (merge_sort Z.le (l ++ [n])).
Proof.
  intros Hl Hn. apply ascending_of_sorted.
  - apply StronglySorted_merge_sort; apply _.
  - rewrite merge_sort_Permutation. apply NoDup_app. split; [apply ascending_NoDup, Hl|].
    split; [|apply NoDup_singleton].
    intros x Hx Hx'. apply list_elem_of_singleton in Hx'. subst.
    apply list_elem_of_In in Hx. contradiction.
Qed.

Lemma toggled_ascending (n : Z) (o : Operation) (s : UserSettings) :
  ascending (selectedTablesOf s o) ->
  ascending (selectedTablesOf (toggleTable n o s) o).
Proof.
  intros Hasc. rewrite selectedTablesOf_toggleTable.
  destruct (includes (selectedTablesOf s o) n) eqn:E.
  - apply ascending_filter, Hasc.
  - apply ascending_merge_sort_snoc; [exact Hasc|].
    intros Hin. apply includes_In in Hin. congruence.
Qed.

Lemma settings_ext (s1 s2 : UserSettings) :
  multiplicationTables s1 = multiplicationTables s2 ->
  divisionTables s1 = divisionTables s2 ->
  exerciseCount s1 = exerciseCount s2 -> s1 = s2.
Proof. destruct s1, s2. simpl. intros -> -> ->. reflexivity. Qed.

(** X2. On an ascending table set, clicking the same table button twice
    gives back the settings one started from. *)
Theorem toggleTable_twice (n : Z) (o : Operation) (s : UserSettings) :
  ascending (selectedTablesOf s o) ->
  toggleTable n o (toggleTable n o s) = s.
Proof.
  intros Hasc.
  assert (Hsel : selectedTablesOf (toggleTable n o (toggleTable n o s)) o
                 = selectedTablesOf s o).
  { apply ascending_ext; [apply toggled_ascending, toggled_ascending, Hasc | exact Hasc|].
    intros x.
    destruct (toggled_membership n o (toggleTable n o s)) as (Hn2 & Hk2).
    destruct (toggled_membership n o s) as (Hn1 & Hk1).
    destruct (decide (x = n)) as [->|Hne].
    - rewrite Hn2, Hn1.
      destruct (in_dec Z.eq_dec n (selectedTablesOf s o)); tauto.
    - rewrite (Hk2 x Hne). apply Hk1, Hne. }
  destruct o; apply settings_ext; try exact Hsel; reflexivity.
Qed.

Lemma TABLES_range (n : Z) : includes TABLES n = true -> 0 <= n <= 10.
Proof.
  intros H. apply includes_In in H. unfold TABLES in H.
  apply in_map_iff in H as (k & <- & Hk). apply in_seq in Hk. lia.
Qed.

Lemma toggled_range (P : Z -> Prop) (n : Z) (o : Operation) (s : UserSettings) :
  P n -> Forall P (selectedTablesOf s o) ->
  Forall P (selectedTablesOf (toggleTable n o s) o).
Proof.
  intros Hn Hall. rewrite Forall_forall in Hall |- *. intros x Hx.
  apply list_elem_of_In in Hx.
  destruct (decide (x = n)) as [->|Hne]; [exact Hn|].
  apply Hall, list_elem_of_In.
  destruct (toggled_membership n o s) as (_ & Hk). apply (Hk x Hne), Hx.
Qed.

Lemma toggleTable_settingsOk (n : Z) (o : Operation) (s : UserSettings) :
  tableButtonEnabled o n = true -> settingsOk s -> settingsOk (toggleTable n o s).
Proof.
  intros Hen (Hma & Hmr & Hda & Hdr).
  unfold tableButtonEnabled in Hen. apply andb_true_iff in Hen as [Hn Ho].
  apply TABLES_range in Hn.
  destruct o.
  - split; [exact (toggled_ascending n multiplication s Hma)|].
    split; [exact (toggled_range _ n multiplication s Hn Hmr)|].
    split; [exact Hda | exact Hdr].
  - apply negb_true_iff, Z.eqb_neq in Ho.
    split; [exact Hma|]. split; [exact Hmr|].
    split; [exact (toggled_ascending n division s Hda)|].
    apply (toggled_range _ n division s); [lia | exact Hdr].
Qed.

Lemma intervalTick_settings (st : AppState) : settings (intervalTick st) = settings st.
Proof.
  unfold intervalTick. destruct (timerRef st) as [r|]; [|reflexivity].
  destruct (Qle_bool (timeLeft st) (1 # 20)); [|reflexivity].
  change (settings (setTimeLeft 0 ?x)) with (settings x).
  rewrite handleAnswer_settings. reflexivity.
Qed.

Lemma timeoutFires_settings (st : AppState) (g : Rng) :
  settings (timeoutFires st g).1 = settings st.
Proof.
  unfold timeoutFires. destruct (timeouts st) as [|s rest]; [reflexivity|].
  unfold advance. destruct (10 <=? total (s_nextStats s)); [reflexivity|].
  unfold bind. destruct (generateExercise _ _ _ g). reflexivity.
Qed.

Lemma startPractice_settings (st : AppState) (g : Rng) :
  settings (startPractice st g).1 = settings st.
Proof.
  unfold startPractice.
  destruct ((length (multiplicationTables (settings st)) =? 0)
            && (length (divisionTables (settings st)) =? 0))%nat; [reflexivity|].
  unfold bind. destruct (generateExercise _ _ None g). reflexivity.
Qed.

Lemma handleSubmit_settings (st : AppState) : settings (handleSubmit st) = settings st.
Proof.
  unfold handleSubmit. case_bool_decide; [reflexivity|]. apply handleAnswer_settings.
Qed.

(** Only an enabled table button on the settings screen changes the settings. *)
Lemma step_settings (ev : Event) (st : AppState) (g : Rng) :
  settings (step ev st g).1 = settings st \/
  exists o n, ev = ClickTable o n /\ mode st = ModeSettings /\
              tableButtonEnabled o n = true /\
              settings (step ev st g).1 = toggleTable n o (settings st).
Proof.
  destruct ev.
  - unfold step. destruct (mode st) eqn:Hmode; try (left; reflexivity). simpl.
    destruct (tableButtonEnabled o n) eqn:Hen; [|left; reflexivity].
    right. exists o, n. auto.
  - left. unfold step. destruct (mode st); try reflexivity; apply startPractice_settings.
  - left. rewrite step_TypeAnswer. simpl. destruct (inputEnabled st); reflexivity.
  - left. rewrite step_PressEnter. simpl.
    destruct (submitEnabled st); [apply handleSubmit_settings | reflexivity].
  - left. rewrite step_IntervalFires. apply intervalTick_settings.
  - left. rewrite step_TimeoutFires. apply timeoutFires_settings.
  - left. unfold step. destruct (mode st); simpl; destruct (practiceShown st); reflexivity.
  - left. unfold step. destruct (mode st); reflexivity.
Qed.

(** X3. Whatever the user and the timers do, the table sets stay as the
    settings screen builds them: in strictly ascending order, the
    multiplication tables among 0..10 and the division tables among 1..10
    (so 0 is never a divisor). *)
Theorem table_sets_stay_well_formed (evs : list Event) (st : AppState) (g : Rng) :
  settingsOk (settings st) -> settingsOk (settings (run evs st g).1).
Proof.
  revert st g.
  induction evs as [|ev evs IH]; intros st g Hok.
  - exact Hok.
  - rewrite run_cons. apply IH.
    destruct (step_settings ev st g) as [-> | (o & n & _ & _ & Hen & ->)];
      [exact Hok | apply toggleTable_settingsOk; assumption].
Qed.

Lemma step_masteryInRange (ev : Event) (st : AppState) (g : Rng) :
  masteryInRange (mastery st) -> masteryInRange (mastery (step ev st g).1).
Proof.
  intros Hm. destruct ev.
  - unfold step. destruct (mode st); try exact Hm. simpl.
    destruct (tableButtonEnabled o n); exact Hm.
  - unfold step. destruct (mode st); try exact Hm; unfold startPractice;
      (destruct ((length (multiplicationTables (settings st)) =? 0)
                 && (length (divisionTables (settings st)) =? 0))%nat; [exact Hm|]);
      unfold bind; destruct (generateExercise _ _ None g); exact Hm.
  - rewrite step_TypeAnswer. simpl. destruct (inputEnabled st); exact Hm.
  - rewrite step_PressEnter. simpl. destruct (submitEnabled st); [|exact Hm].
    unfold handleSubmit. case_bool_decide; [exact Hm|].
    apply handleAnswer_masteryInRange, Hm.
  - rewrite step_IntervalFires. simpl. unfold intervalTick.
    destruct (timerRef st) as [r|]; [|exact Hm].
    destruct (Qle_bool (timeLeft st) (1 # 20)); [|exact Hm].
    change (mastery (setTimeLeft 0 ?x)) with (mastery x).
    apply handleAnswer_masteryInRange. exact Hm.
  - rewrite step_TimeoutFires. unfold timeoutFires.
    destruct (timeouts st) as [|s rest]; [exact Hm|].
    unfold advance. destruct (10 <=? total (s_nextStats s)); [exact Hm|].
    unfold bind. destruct (generateExercise _ _ _ g). exact Hm.
  - unfold step. destruct (mode st); simpl; destruct (practiceShown st); exact Hm.
  - unfold step. destruct (mode st); exact Hm.
Qed.

(** X4. Whatever the user and the timers do, including timeouts scored by
    a stale handler, every stored mastery score stays in [0,10]. *)
Theorem mastery_scores_stay_in_range (evs : list Event) (st : AppState) (g : Rng) :
  masteryInRange (mastery st) -> masteryInRange (mastery (run evs st g).1).
Proof.
  revert st g.
  induction evs as [|ev evs IH]; intros st g Hm.
  - exact Hm.
  - rewrite run_cons. apply IH, step_masteryInRange, Hm.
Qed.

(** ** More on [generateExercise] *)

Lemma generateExercise_first (s : UserSettings) (m : MasteryData) (g : Rng) :
  availableOps s <> [] ->
  (generateExercise s m None g).1 = Some (candidate s m g).1.
Proof.
  intros Hne. unfold generateExercise.
  assert (Hlen : (length (availableOps s) =? 0)%nat = false).
  { destruct (availableOps s); [congruence | reflexivity]. }
  rewrite Hlen, attemptLoop_S. unfold bind.
  destruct (candidate s m g) as [next g1]. reflexivity.
Qed.

Lemma availableOps_nil (s : UserSettings) :
  availableOps s = [] <-> multiplicationTables s = [] /\ divisionTables s = [].
Proof.
  unfold availableOps. split.
  - destruct (multiplicationTables s), (divisionTables s); simpl; intros H;
      try discriminate; auto.
  - intros [-> ->]. reflexivity.
Qed.

(** X5. Called without a previous exercise, [generateExercise] returns null
    exactly when no table is selected for either operation. *)
Theorem generate_null_without_previous (s : UserSettings) (m : MasteryData) (g : Rng) :
  (generateExercise s m None g).1 = None <->
  multiplicationTables s = [] /\ divisionTables s = [].
Proof.
  rewrite <- availableOps_nil. split.
  - intros Hnone. destruct (availableOps s) eqn:E; [reflexivity|].
    rewrite generateExercise_first in Hnone; [discriminate | congruence].
  - intros Hnil. unfold generateExercise. rewrite Hnil. reflexivity.
Qed.

Lemma attemptLoop_accepted (s : UserSettings) (m : MasteryData) (previous : option Exercise)
    (n : nat) : forall (g : Rng) (e : Exercise),
  (attemptLoop s m previous n g).1 = Some e -> accepted previous e = true.
Proof.
  induction n as [|n IH]; intros g e; [discriminate|].
  rewrite attemptLoop_S. unfold bind.
  destruct (candidate s m g) as [next g1].
  destruct (accepted previous next) eqn:E.
  - simpl. intros [= <-]. exact E.
  - apply IH.
Qed.

(** X6. An exercise returned when a previous exercise was passed differs from
    it in all three of [a], [b] and [result]. *)
Theorem returned_exercise_differs_in_every_field (s : UserSettings) (m : MasteryData)
    (p e : Exercise) (g : Rng) :
  (generateExercise s m (Some p) g).1 = Some e ->
  a e <> a p /\ b e <> b p /\ result e <> result p.
Proof.
  unfold generateExercise.
  destruct (length (availableOps s) =? 0)%nat; [discriminate|].
  intros Hgen. apply attemptLoop_accepted in Hgen. simpl in Hgen.
  apply andb_true_iff in Hgen as [Hgen Hr]. apply andb_true_iff in Hgen as [Ha Hb].
  apply negb_true_iff, Z.eqb_neq in Ha, Hb, Hr. auto.
Qed.

Lemma always_generateExercise_with (s : UserSettings) (m : MasteryData)
    (previous : option Exercise) (P : Exercise -> Prop) :
  (availableOps s <> [] -> always (candidate s m) P) ->
  always (generateExercise s m previous) (fun r => forall e, r = Some e -> P e).
Proof.
  intros Hcand. unfold generateExercise.
  destruct (length (availableOps s) =? 0)%nat eqn:E.
  - apply always_ret. discriminate.
  - eapply always_weaken.
    + apply always_attemptLoop, Hcand. intros Hnil. rewrite Hnil in E. discriminate.
    + intros r Hr e He. apply (Hr e He).
Qed.

Lemma always_orderedProduct_operands (table other : Z) :
  always (orderedProduct table other)
    (fun e => op e = multiplication /\ isChallenge e = None /\ display e = None /\
              ((a e = table /\ b e = other) \/ (a e = other /\ b e = table))).
Proof.
  unfold orderedProduct. draw always_coinFlip.
  intros [] _; apply always_ret; simpl; repeat split; auto.
Qed.

Lemma always_multiplicationBand (table score : Z) :
  always (multiplicationExercise table score)
    (fun e => op e = multiplication /\ multiplicationBand table score e).
Proof.
  unfold multiplicationExercise. draw always_challengeGate.
  intros [] Hgate.
  - specialize (Hgate eq_refl). draw always_coinFlip. intros [] _.
    + draw (always_randomBelow 5); [lia|]. intros k Hk. apply always_ret.
      split; [reflexivity|]. left. simpl. repeat split; try assumption.
      left. split; [reflexivity | lia].
    + draw (always_randomBelow 11); [lia|]. intros b0 Hb.
      draw (always_randomBelow 10); [lia|]. intros k Hk. apply always_ret.
      split; [reflexivity|]. left. simpl. repeat split; try assumption.
      right. split; [discriminate | lia].
  - destruct (score <? 3) eqn:E.
    + draw always_randomBelow; [simpl; lia|]. intros k Hk. simpl in Hk.
      eapply always_weaken; [apply always_orderedProduct_operands|].
      intros e (Hop & Hc & Hd & Hops). split; [exact Hop|]. right.
      repeat split; try assumption. eexists. split; [exact Hops|]. rewrite E.
      assert (Hcases : k = 0 \/ k = 1 \/ k = 2 \/ k = 3 \/ k = 4) by lia.
      destruct Hcases as [-> | [-> | [-> | [-> | ->]]]]; simpl; auto 10.
    + draw (always_randomBelow 11); [lia|]. intros other Hother.
      eapply always_weaken; [apply always_orderedProduct_operands|].
      intros e (Hop & Hc & Hd & Hops). split; [exact Hop|]. right.
      repeat split; try assumption. exists other. split; [exact Hops|].
      rewrite E. lia.
Qed.

Lemma always_candidate_band (s : UserSettings) (m : MasteryData) :
  availableOps s <> [] ->
  always (candidate s m)
    (fun e => op e = multiplication ->
       exists table, In table (multiplicationTables s) /\
         multiplicationBand table (scoreOf m (masteryKey multiplication table)) e).
Proof.
  intros Hne. unfold candidate.
  draw always_pickOp; [exact Hne|].
  intros o Ho. apply availableOps_tables in Ho.
  draw always_pickTable; [exact Ho|].
  intros table Htable. destruct o; simpl in Htable.
  - eapply always_weaken; [apply always_multiplicationBand|].
    intros e [_ Hband] _. exists table. auto.
  - eapply always_weaken; [apply always_divisionExercise|].
    intros e [Hop _] Hmul. congruence.
Qed.

(** X7. Every multiplication exercise that [generateExercise] returns is
    built around a configured multiplication table and lies in the band of
    that table's mastery score: a challenge only above score 8, with the
    table as first operand; otherwise the table and another number in either
    order, the other number being one of 0, 1, 2, 5, 10 below score 3 and in
    [0,10] from score 3 on. *)
Theorem multiplication_exercise_band (s : UserSettings) (m : MasteryData)
    (previous : option Exercise) (g : Rng) (e : Exercise) :
  unitDraws g ->
  (generateExercise s m previous g).1 = Some e ->
  op e = multiplication ->
  exists table, In table (multiplicationTables s) /\
    multiplicationBand table (scoreOf m (masteryKey multiplication table)) e.
Proof.
  intros Hg Hgen Hop.
  destruct (always_generateExercise_with s m previous _ (always_candidate_band s m) g Hg)
    as [H _].
  exact (H e Hgen Hop).
Qed.

Lemma credited_of_band (s : UserSettings) (table score : Z) (e : Exercise) :
  op e = multiplication -> In table (multiplicationTables s) ->
  multiplicationBand table score e ->
  In (tableKeyOf s e) (multiplicationTables s).
Proof.
  intros Hop Hin Hband. unfold tableKeyOf. rewrite Hop.
  destruct (includes (multiplicationTables s) (a e)) eqn:E.
  - apply includes_In. exact E.
  - destruct Hband as [(_ & _ & Ha & _) | (_ & _ & other & [[Ha _] | [_ Hb]] & _)].
    + rewrite <- Ha in Hin. apply includes_In in Hin. congruence.
    + rewrite <- Ha in Hin. apply includes_In in Hin. congruence.
    + rewrite Hb. exact Hin.
Qed.

Lemma always_candidate_credited (s : UserSettings) (m : MasteryData) :
  availableOps s <> [] ->
  always (candidate s m) (fun e => In (tableKeyOf s e) (selectedTablesOf s (op e))).
Proof.
  intros Hne.
  eapply always_weaken;
    [apply (always_and _ _ _ (always_candidate s m Hne) (always_candidate_band s m Hne))|].
  intros e [Hshape Hband]. unfold exerciseShape in Hshape.
  destruct (op e) eqn:Hop; simpl.
  - destruct (Hband eq_refl) as (table & Hin & Hb).
    exact (credited_of_band s table _ e Hop Hin Hb).
  - unfold tableKeyOf. rewrite Hop. destruct Hshape as (_ & Hin & _). exact Hin.
Qed.

(** X8. The table that an answer to a generated exercise credits is always
    one of the tables configured for the operation of that exercise. *)
Theorem credited_table_is_configured (s : UserSettings) (m : MasteryData)
    (previous : option Exercise) (g : Rng) (e : Exercise) :
  unitDraws g ->
  (generateExercise s m previous g).1 = Some e ->
  In (tableKeyOf s e) (selectedTablesOf s (op e)).
Proof.
  intros Hg Hgen.
  destruct (always_generateExercise_with s m previous _ (always_candidate_credited s m) g Hg)
    as [H _].
  exact (H e Hgen).
Qed.

Lemma bounds_of_shape (s : UserSettings) (m : MasteryData) (e : Exercise) :
  settingsOk s -> exerciseShape s m e ->
  (op e = multiplication ->
     exists table, In table (multiplicationTables s) /\
       multiplicationBand table (scoreOf m (masteryKey multiplication table)) e) ->
  0 <= a e <= 150 /\ 0 <= b e <= 15 /\ 0 <= result e <= 150.
Proof.
  intros (_ & Hmr & _ & Hdr) Hshape Hband.
  rewrite Forall_forall in Hmr, Hdr.
  unfold exerciseShape in Hshape. destruct (op e) eqn:Hop.
  - destruct (Hband eq_refl) as (table & Hin & Hb).
    apply list_elem_of_In, Hmr in Hin. unfold multiplicationShape in Hshape.
    destruct Hb as [(_ & _ & Ha & [[Hd Hrange] | [Hd Hrange]])
                   | (_ & Hd & other & Hops & Hother)].
    + rewrite Hd in Hshape. nia.
    + destruct (display e); [|congruence].
      destruct Hshape as (_ & _ & _ & c & Hc & Hres & _). nia.
    + rewrite Hd in Hshape.
      assert (Ho : 0 <= other <= 10).
      { destruct (_ <? 3); [|exact Hother]. simpl in Hother.
        destruct Hother as [<- | [<- | [<- | [<- | [<- | []]]]]]; lia. }
      destruct Hops as [[Ha Hb] | [Ha Hb]]; nia.
  - destruct Hshape as (Ha & Hin & Hbands).
    apply list_elem_of_In, Hdr in Hin.
    assert (Hres : 0 <= result e <= 15).
    { destruct Hbands as [(_ & _ & Hr) | [(_ & _ & Hr) | (_ & _ & Hr)]]; try lia.
      simpl in Hr. destruct Hr as [<- | [<- | [<- | [<- | []]]]]; lia. }
    nia.
Qed.

(** X9. With table sets as the settings screen builds them, the numbers of
    every generated exercise are small non-negative integers: [a] and
    [result] lie in [0,150] and [b] in [0,15]. *)
Theorem exercise_numbers_bounded (s : UserSettings) (m : MasteryData)
    (previous : option Exercise) (g : Rng) (e : Exercise) :
  unitDraws g -> settingsOk s ->
  (generateExercise s m previous g).1 = Some e ->
  0 <= a e <= 150 /\ 0 <= b e <= 15 /\ 0 <= result e <= 150.
Proof.
  intros Hg Hok Hgen.
  assert (Hcand : availableOps s <> [] ->
            always (candidate s m)
              (fun e => 0 <= a e <= 150 /\ 0 <= b e <= 15 /\ 0 <= result e <= 150)).
  { intros Hne. eapply always_weaken;
      [apply (always_and _ _ _ (always_candidate s m Hne) (always_candidate_band s m Hne))|].
    intros x [Hshape Hband]. exact (bounds_of_shape s m x Hok Hshape Hband). }
  destruct (always_generateExercise_with s m previous _ Hcand g Hg) as [H _].
  exact (H e Hgen).
Qed.

(** ** The mastery store *)

(** X10. Two mastery keys coincide only for the same operation and the same
    table, so an answer changes the score of the credited (operation, table)
    pair alone: the score of every other pair is what it was. *)
Theorem other_scores_untouched (r : Render) (answer : option string)
    (st : AppState) (ex : Exercise) (o : Operation) (t : Z) :
  r_currentExercise r = Some ex -> r_feedback r = None ->
  o <> op ex \/ t <> tableKeyOf (r_settings r) ex ->
  scoreOf (mastery (handleAnswer r answer st)) (masteryKey o t)
  = scoreOf (mastery st) (masteryKey o t).
Proof.
  intros Hex Hfb Hother.
  destruct (handleAnswer_accepted r answer st ex Hex Hfb) as (_ & -> & _).
  unfold updateMastery, scoreOf. rewrite lookup_insert_ne; [reflexivity|].
  intros Heq. apply masteryKey_inj in Heq as [<- <-]. destruct Hother; congruence.
Qed.

(** ** Submitting *)

Lemma handleSubmit_cases (st : AppState) :
  handleSubmit st = st \/
  (feedback (handleSubmit st) <> None /\ userAnswer (handleSubmit st) = userAnswer st).
Proof.
  unfold handleSubmit. case_bool_decide; [left; reflexivity|].
  destruct (currentExercise st) as [ex|] eqn:Hex;
    [destruct (feedback st) as [fb|] eqn:Hfb|].
  - left. apply handleAnswer_ignored. right. simpl. congruence.
  - right.
    destruct (handleAnswer_accepted (renderOf st) (Some (userAnswer st)) st ex Hex Hfb)
      as (Hf & _ & _ & _ & _ & _ & _ & _ & _ & Hua & _).
    split; [rewrite Hf; discriminate | exact Hua].
  - left. apply handleAnswer_ignored. left. exact Hex.
Qed.

(** X11. Submitting twice in a row scores once: the second submission finds
    the feedback of the first and changes nothing. *)
Theorem handleSubmit_idempotent (st : AppState) :
  handleSubmit (handleSubmit st) = handleSubmit st.
Proof.
  destruct (handleSubmit_cases st) as [H | [Hfb Hua]]; [rewrite H; exact H|].
  unfold handleSubmit at 1. case_bool_decide; [reflexivity|].
  apply handleAnswer_ignored. right. exact Hfb.
Qed.

(** ** Keeping score *)





Lemma startPractice_started (st : AppState) (g : Rng) :
  multiplicationTables (settings st) <> [] \/ divisionTables (settings st) <> [] ->
  let st' := (startPractice st g).1 in
  mode st' = ModePractice /\ stats st' = {| correct := 0; total := 0 |} /\
  history st' = [] /\ feedback st' = None /\ userAnswer st' = "" /\
  timeLeft st' = 15%Q /\ timerRef st' = Some (renderOf st) /\
  settings st' = settings st /\ mastery st' = mastery st /\
  timeouts st' = timeouts st /\
  currentExercise st' = (generateExercise (settings st) (mastery st) None g).1.
Proof.
  intros Hne. unfold startPractice.
  assert (E : ((length (multiplicationTables (settings st)) =? 0)
               && (length (divisionTables (settings st)) =? 0))%nat = false).
  { apply andb_false_iff.
    destruct Hne as [H | H]; [left | right]; apply Nat.eqb_neq;
      intros Hlen; apply H; apply length_zero_iff_nil; exact Hlen. }
  rewrite E. unfold bind.
  destruct (generateExercise (settings st) (mastery st) None g) as [first g'].
  simpl. repeat split; reflexivity.
Qed.


(** X13. Starting practice with at least one table selected always puts a
    well-formed exercise on screen and starts from a clean slate: mode
    [practice], statistics 0/0, empty history, no feedback, empty input,
    countdown at 15 with the timer running; settings and mastery are not
    touched. *)
Theorem startPractice_fresh_session (st : AppState) (g : Rng) :
  multiplicationTables (settings st) <> [] \/ divisionTables (settings st) <> [] ->
  unitDraws g ->
  let st' := (startPractice st g).1 in
  (exists e, currentExercise st' = Some e /\ exerciseShape (settings st) (mastery st) e) /\
  mode st' = ModePractice /\ stats st' = {| correct := 0; total := 0 |} /\
  history st' = [] /\ feedback st' = None /\ userAnswer st' = "" /\
  timeLeft st' = 15%Q /\ timerRef st' <> None /\
  settings st' = settings st /\ mastery st' = mastery st.
Proof.
  intros Hne Hg st'.
  destruct (startPractice_started st g Hne)
    as (Hm & Hs & Hh & Hf & Hu & Ht & Hr & Hset & Hmas & _ & Hcur).
  fold st' in Hm, Hs, Hh, Hf, Hu, Ht, Hr, Hset, Hmas, Hcur.
  split.
  { pose proof (availableOps_nonempty _ Hne) as Hops.
    exists (candidate (settings st) (mastery st) g).1. split.
    - rewrite Hcur. apply generateExercise_first, Hops.
    - apply (always_candidate _ _ Hops g Hg). }
  repeat split; try assumption. rewrite Hr. discriminate.
Qed.

(** ** What a session never loses *)

Lemma handleAnswer_history (r : Render) (answer : option string) (st : AppState) :
  exists later, history (handleAnswer r answer st) = history st ++ later.
Proof.
  destruct (r_currentExercise r) as [ex|] eqn:Hex;
    [destruct (r_feedback r) as [fb|] eqn:Hfb|].
  - exists []. rewrite handleAnswer_ignored, app_nil_r; [reflexivity | right; congruence].
  - destruct (handleAnswer_accepted r answer st ex Hex Hfb) as (_ & _ & _ & Hh & _).
    eexists. exact Hh.
  - exists []. rewrite handleAnswer_ignored, app_nil_r; [reflexivity | left; exact Hex].
Qed.

Lemma step_history (ev : Event) (st : AppState) (g : Rng) :
  ev <> ClickStart ->
  exists later, history (step ev st g).1 = history st ++ later.
Proof.
  intros Hev.
  assert (Hsame : forall st', history st' = history st ->
            exists later, history st' = history st ++ later).
  { intros st' ->. exists []. rewrite app_nil_r. reflexivity. }
  destruct ev; try congruence.
  - apply Hsame. unfold step. destruct (mode st); try reflexivity. simpl.
    destruct (tableButtonEnabled o n); reflexivity.
  - apply Hsame. rewrite step_TypeAnswer. simpl. destruct (inputEnabled st); reflexivity.
  - rewrite step_PressEnter. simpl. destruct (submitEnabled st); [|apply Hsame; reflexivity].
    unfold handleSubmit. case_bool_decide; [apply Hsame; reflexivity|].
    apply handleAnswer_history.
  - rewrite step_IntervalFires. simpl. unfold intervalTick.
    destruct (timerRef st) as [r|]; [|apply Hsame; reflexivity].
    destruct (Qle_bool (timeLeft st) (1 # 20)); [|apply Hsame; reflexivity].
    change (history (setTimeLeft 0 ?x)) with (history x).
    exact (handleAnswer_history r None (stopTimer st)).
  - apply Hsame. rewrite step_TimeoutFires. unfold timeoutFires.
    destruct (timeouts st) as [|s rest]; [reflexivity|].
    unfold advance. destruct (10 <=? total (s_nextStats s)); [reflexivity|].
    unfold bind. destruct (generateExercise _ _ _ g). reflexivity.
  - apply Hsame. unfold step. destruct (mode st); simpl; destruct (practiceShown st); reflexivity.
  - apply Hsame. unfold step. destruct (mode st); reflexivity.
Qed.

(** X14. The history is append-only: as long as practice is not started
    anew, whatever happens (answers, timeouts, leaving to the settings)
    only adds entries after those already recorded. *)
Theorem history_append_only (evs : list Event) (st : AppState) (g : Rng) :
  ~ In ClickStart evs ->
  exists later, history (run evs st g).1 = history st ++ later.
Proof.
  revert st g.
  induction evs as [|ev evs IH]; intros st g Hno.
  - exists []. rewrite app_nil_r. reflexivity.
  - rewrite run_cons.
    destruct (step_history ev st g) as [l1 H1]; [intros ->; apply Hno; left; reflexivity|].
    destruct (IH (step ev st g).1 (step ev st g).2) as [l2 H2];
      [intros Hin; apply Hno; right; exact Hin|].
    exists (l1 ++ l2). rewrite H2, H1, app_assoc. reflexivity.
Qed.

(** ** The countdown *)

Lemma handleAnswer_timeLeft (r : Render) (answer : option string) (st : AppState) :
  timeLeft (handleAnswer r answer st) = timeLeft st.
Proof.
  unfold handleAnswer. destruct (r_currentExercise r); [|reflexivity].
  destruct (r_feedback r); reflexivity.
Qed.

Lemma fifteen_inRange : (0 <= 15)%Q /\ (15 <= 15)%Q.
Proof. split; lra. Qed.

Lemma step_timeLeft (ev : Event) (st : AppState) (g : Rng) :
  timeLeftInRange st -> timeLeftInRange (step ev st g).1.
Proof.
  intros Hr. unfold timeLeftInRange in *. destruct ev.
  - unfold step. destruct (mode st); try exact Hr. simpl.
    destruct (tableButtonEnabled o n); exact Hr.
  - unfold step. destruct (mode st); try exact Hr; unfold startPractice;
      (destruct ((length (multiplicationTables (settings st)) =? 0)
                 && (length (divisionTables (settings st)) =? 0))%nat; [exact Hr|]);
      unfold bind; destruct (generateExercise _ _ None g); exact fifteen_inRange.
  - rewrite step_TypeAnswer. simpl. destruct (inputEnabled st); exact Hr.
  - rewrite step_PressEnter. simpl. destruct (submitEnabled st); [|exact Hr].
    unfold handleSubmit. case_bool_decide; [exact Hr|].
    rewrite handleAnswer_timeLeft. exact Hr.
  - rewrite step_IntervalFires. simpl. unfold intervalTick.
    destruct (timerRef st) as [r|]; [|exact Hr].
    destruct (Qle_bool (timeLeft st) (1 # 20)) eqn:E.
    + simpl. split; lra.
    + assert (Hgt : ~ (timeLeft st <= 1 # 20)%Q).
      { intros Hle. apply Qle_bool_iff in Hle. congruence. }
      simpl. destruct Hr as [H0 H15]. split; lra.
  - rewrite step_TimeoutFires. unfold timeoutFires.
    destruct (timeouts st) as [|s rest]; [exact Hr|].
    unfold advance. destruct (10 <=? total (s_nextStats s)); [exact Hr|].
    unfold bind. destruct (generateExercise _ _ _ g). exact fifteen_inRange.
  - unfold step. destruct (mode st); simpl; destruct (practiceShown st); exact Hr.
  - unfold step. destruct (mode st); exact Hr.
Qed.

(** X15. The countdown never leaves [0,15]: a tick that finds at most 0.05
    left sets it to 0 instead of going below, and only starting the timer
    raises it, to 15. *)
Theorem countdown_stays_in_range (evs : list Event) (st : AppState) (g : Rng) :
  timeLeftInRange st -> timeLeftInRange (run evs st g).1.
Proof.
  revert st g.
  induction evs as [|ev evs IH]; intros st g Hr.
  - exact Hr.
  - rewrite run_cons. apply IH, step_timeLeft, Hr.
Qed.

(** ** Answers that go through the form *)

Lemma append_nil_r (s : string) : s +:+ "" = s.
Proof.
  induction s as [|c s IH]; [reflexivity|].
  change (String c (s +:+ "") = String c s). f_equal. exact IH.
Qed.

Lemma append_assoc (s1 s2 s3 : string) : (s1 +:+ s2) +:+ s3 = s1 +:+ (s2 +:+ s3).
Proof.
  induction s1 as [|c s1 IH]; [reflexivity|].
  change (String c ((s1 +:+ s2) +:+ s3) = String c (s1 +:+ (s2 +:+ s3))).
  f_equal. exact IH.
Qed.

Lemma allDecimal_not_hex (s : string) : allDecimal s = true -> hexPrefixed s = false.
Proof.
  destruct s as [|c0 [|c1 rest]]; try reflexivity. simpl. intros H.
  apply andb_true_iff in H as [_ H]. apply andb_true_iff in H as [H1 _].
  assert (Hx : (c1 =? "x")%char = false)
    by (apply Ascii.eqb_neq; intros ->; vm_compute in H1; discriminate).
  assert (HX : (c1 =? "X")%char = false)
    by (apply Ascii.eqb_neq; intros ->; vm_compute in H1; discriminate).
  rewrite Hx, HX, andb_false_r. reflexivity.
Qed.

Lemma parseInt_allDecimal (s : string) :
  s <> "" -> allDecimal s = true -> parseInt s = Some (decimalValue s).
Proof.
  intros Hne Hdec.
  pose proof (parseInt_leading_digits s "" Hne Hdec eq_refl) as H.
  rewrite append_nil_r in H. apply H, allDecimal_not_hex, Hdec.
Qed.

(** X16. Through the form an answer is scored only if it is a non-empty
    string of digits, and then it is judged correct exactly when the number
    it writes in decimal equals the result of the question on screen; an
    input with any other character is not submitted, and nothing is scored. *)
Theorem typed_answer_judged_by_value (st : AppState) (ex : Exercise) (s : string) (g : Rng) :
  mode st = ModePractice -> currentExercise st = Some ex -> feedback st = None ->
  s <> "" ->
  let st' := (run [TypeAnswer s; PressEnter] st g).1 in
  (allDecimal s = true ->
     (feedback st' = Some FeedbackCorrect <-> decimalValue s = result ex) /\
     (feedback st' = Some FeedbackIncorrect <-> decimalValue s <> result ex) /\
     total (stats st') = total (stats st) + 1) /\
  (allDecimal s = false ->
     feedback st' = None /\ stats st' = stats st /\ history st' = history st /\
     mastery st' = mastery st).
Proof.
  intros Hmode Hex Hfb Hne st'.
  assert (Hen : inputEnabled st = true).
  { unfold inputEnabled, practiceShown. rewrite Hmode, Hex, Hfb. reflexivity. }
  assert (Hst' : st' = if allDecimal s then handleSubmit (setUserAnswer s st)
                       else setUserAnswer s st).
  { unfold st'. rewrite run_cons, step_TypeAnswer, run_cons, step_PressEnter.
    simpl. rewrite Hen. unfold submitEnabled.
    change (inputEnabled (setUserAnswer s st)) with (inputEnabled st).
    rewrite Hen. simpl. destruct (allDecimal s); reflexivity. }
  split; intros Hdec; rewrite Hdec in Hst'.
  - assert (Hsub : st' = handleAnswer (renderOf (setUserAnswer s st)) (Some s)
                           (setUserAnswer s st)).
    { rewrite Hst'. unfold handleSubmit. simpl userAnswer.
      rewrite bool_decide_eq_false_2 by exact Hne. reflexivity. }
    destruct (handleAnswer_accepted (renderOf (setUserAnswer s st)) (Some s)
                (setUserAnswer s st) ex Hex Hfb) as (Hf & _ & Hs & _).
    rewrite <- Hsub in Hf, Hs. simpl in Hf, Hs.
    rewrite (parseInt_allDecimal s Hne Hdec) in Hf.
    split; [|split]; [| |rewrite Hs; reflexivity]; rewrite Hf;
      destruct (decide (decimalValue s = result ex)) as [Heq | Hneq].
    + rewrite bool_decide_eq_true_2 by congruence. split; [intros _; exact Heq | reflexivity].
    + rewrite bool_decide_eq_false_2 by congruence. split; [discriminate | contradiction].
    + rewrite bool_decide_eq_true_2 by congruence. split; [discriminate | contradiction].
    + rewrite bool_decide_eq_false_2 by congruence. split; [intros _; exact Hneq | reflexivity].
  - rewrite Hst'. simpl. auto.
Qed.

(** *** The decimal rendering of a number *)

Lemma decimalValueFrom_app (s1 s2 : string) : forall acc,
  decimalValueFrom acc (s1 +:+ s2) = decimalValueFrom (decimalValueFrom acc s1) s2.
Proof.
  induction s1 as [|c s1 IH]; intros acc; [reflexivity|].
  change (String c s1 +:+ s2) with (String c (s1 +:+ s2)). simpl. apply IH.
Qed.

Lemma allDecimal_app (s1 s2 : string) :
  allDecimal (s1 +:+ s2) = allDecimal s1 && allDecimal s2.
Proof.
  induction s1 as [|c s1 IH]; [reflexivity|].
  change (String c s1 +:+ s2) with (String c (s1 +:+ s2)). simpl.
  rewrite IH, andb_assoc. reflexivity.
Qed.

Lemma pretty_N_char_digit (d : N) :
  (d < 10)%N ->
  isDecimalDigit (pretty_N_char d) = true /\
  Z.of_nat (nat_of_ascii (pretty_N_char d)) - 48 = Z.of_N d.
Proof.
  intros Hd.
  assert (Hcases : (d = 0 \/ d = 1 \/ d = 2 \/ d = 3 \/ d = 4 \/ d = 5 \/ d = 6
                    \/ d = 7 \/ d = 8 \/ d = 9)%N) by lia.
  repeat (destruct Hcases as [-> | Hcases]; [split; reflexivity|]).
  subst. split; reflexivity.
Qed.

Lemma pretty_N_go_app (x : N) : forall s, pretty_N_go x s = pretty_N_go x "" +:+ s.
Proof.
  induction (N.lt_wf_0 x) as [x _ IH]. intros s.
  destruct (decide (x = 0)%N) as [->|Hx]; [rewrite !pretty_N_go_0; reflexivity|].
  rewrite (pretty_N_go_step x s), (pretty_N_go_step x "") by lia.
  rewrite (IH (x `div` 10)%N) by (apply N.div_lt; lia).
  rewrite (IH (x `div` 10)%N ltac:(apply N.div_lt; lia) (String _ "")).
  rewrite append_assoc. reflexivity.
Qed.

Lemma pretty_N_go_digits (x : N) :
  allDecimal (pretty_N_go x "") = true /\
  decimalValue (pretty_N_go x "") = Z.of_N x.
Proof.
  induction (N.lt_wf_0 x) as [x _ IH].
  destruct (decide (x = 0)%N) as [->|Hx]; [split; reflexivity|].
  rewrite (pretty_N_go_step x "") by lia. rewrite pretty_N_go_app.
  destruct (IH (x `div` 10)%N ltac:(apply N.div_lt; lia)) as [Hall Hval].
  destruct (pretty_N_char_digit (x `mod` 10)%N ltac:(apply N.mod_lt; lia)) as [Hd Hv].
  split.
  - rewrite allDecimal_app, Hall. simpl. rewrite Hd. reflexivity.
  - unfold decimalValue in *. rewrite decimalValueFrom_app, Hval. simpl.
    rewrite Hv. rewrite (N.div_mod x 10) at 3 by lia. lia.
Qed.

Lemma pretty_digits (n : Z) :
  0 <= n ->
  pretty n <> "" /\ allDecimal (pretty n) = true /\ decimalValue (pretty n) = n.
Proof.
  intros Hn. destruct n as [|p|p]; [repeat split; discriminate | | lia].
  change (pretty (Z.pos p)) with (pretty_N_go (N.pos p) "").
  destruct (pretty_N_go_digits (N.pos p)) as [Hall Hval].
  split; [|split; [exact Hall | exact Hval]].
  intros Hempty. rewrite Hempty in Hval. discriminate.
Qed.

(** X17. Typing the result of the question on screen as it is written in
    decimal is always judged correct (the result being non-negative, as it is
    for every generated exercise). *)
Theorem typing_the_result_is_correct (st : AppState) (ex : Exercise) (g : Rng) :
  mode st = ModePractice -> currentExercise st = Some ex -> feedback st = None ->
  0 <= result ex ->
  let st' := (run [TypeAnswer (pretty (result ex)); PressEnter] st g).1 in
  feedback st' = Some FeedbackCorrect /\
  correct (stats st') = correct (stats st) + 1 /\
  total (stats st') = total (stats st) + 1.
Proof.
  intros Hmode Hex Hfb Hres st'.
  destruct (pretty_digits (result ex) Hres) as (Hne & Hdec & Hval).
  assert (Hen : inputEnabled st = true).
  { unfold inputEnabled, practiceShown. rewrite Hmode, Hex, Hfb. reflexivity. }
  set (s := pretty (result ex)) in *.
  assert (Hst' : st' = handleAnswer (renderOf (setUserAnswer s st)) (Some s)
                         (setUserAnswer s st)).
  { unfold st'. rewrite run_cons, step_TypeAnswer, run_cons, step_PressEnter.
    simpl. rewrite Hen. unfold submitEnabled.
    change (inputEnabled (setUserAnswer s st)) with (inputEnabled st).
    rewrite Hen. simpl userAnswer. rewrite Hdec. simpl.
    unfold handleSubmit. simpl userAnswer.
    rewrite bool_decide_eq_false_2 by exact Hne. reflexivity. }
  destruct (handleAnswer_accepted (renderOf (setUserAnswer s st)) (Some s)
              (setUserAnswer s st) ex Hex Hfb) as (Hf & _ & Hs & _).
  rewrite <- Hst' in Hf, Hs. simpl in Hf, Hs.
  rewrite (parseInt_allDecimal s Hne Hdec), Hval in Hf, Hs.
  rewrite bool_decide_eq_true_2 in Hf, Hs by reflexivity.
  rewrite Hf, Hs. simpl. auto.
Qed.

(** ** No table is starved *)

Lemma weightedIndex_unique (ws : list Z) (x : Q) (i : nat) :
  (i < length ws)%nat ->
  (remainderAfter ws x i <= 0)%Q ->
  (forall j, (j < i)%nat -> (0 < remainderAfter ws x j)%Q) ->
  weightedIndex ws x 0 = i.
Proof.
  intros Hi Hle Hbefore.
  destruct (weightedIndex_first ws x 0) as [(k & Hk & -> & Hkle & Hkbefore) | [_ Hall]].
  - simpl. destruct (lt_eq_lt_dec k i) as [[Hlt | ->] | Hgt]; [|reflexivity|].
    + specialize (Hbefore k Hlt). lra.
    + specialize (Hkbefore i Hgt). lra.
  - specialize (Hall i Hi). lra.
Qed.

Lemma weightSum_take_S (ws : list Z) (i : nat) (w : Z) :
  ws !! i = Some w -> weightSum (take (S i) ws) = weightSum (take i ws) + w.
Proof.
  intros Hw. rewrite (take_S_r _ _ _ Hw). unfold weightSum.
  rewrite foldr_app. simpl.
  generalize (take i ws). intros l. induction l as [|y l IH]; simpl; lia.
Qed.

Lemma weightSum_take_mono (ws : list Z) :
  Forall (fun w => 1 <= w) ws ->
  forall i j, (i <= j)%nat -> weightSum (take i ws) <= weightSum (take j ws).
Proof.
  intros Hall. induction ws as [|w ws IH]; intros i j Hij.
  - rewrite !take_nil. lia.
  - inversion Hall; subst.
    destruct i as [|i]; destruct j as [|j]; try lia; simpl.
    + assert (H0 : weightSum (take 0 ws) <= weightSum (take j ws)) by (apply IH; [assumption | lia]).
      simpl in H0. lia.
    + specialize (IH ltac:(assumption) i j ltac:(lia)). lia.
Qed.

Lemma weightSum_take_le (ws : list Z) (i : nat) :
  Forall (fun w => 1 <= w) ws -> weightSum (take i ws) <= weightSum ws.
Proof.
  intros Hall. rewrite <- (take_ge ws (Nat.max i (length ws))) at 2 by lia.
  apply weightSum_take_mono; [exact Hall | lia].
Qed.

(** X18. Every configured table can be drawn: whatever the mastery scores
    (within [0,10]), for each table of the set there is a draw in [0,1) on
    which the weighted selection picks it. *)
Theorem every_table_can_be_drawn (m : MasteryData) (o : Operation)
    (tables : list Z) (i : nat) (t : Z) :
  masteryInRange m -> tables !! i = Some t ->
  exists r : Q, (0 <= r)%Q /\ (r < 1)%Q /\
    forall g : Rng, (g 0%nat == r)%Q -> (pickTable m o tables g).1 = t.
Proof.
  intros Hm Ht.
  set (ws := weightsOf m o tables).
  assert (Hall : Forall (fun w => 1 <= w) ws).
  { unfold ws, weightsOf. apply Forall_forall. intros w Hin.
    apply list_elem_of_In, in_map_iff in Hin as (t' & <- & _).
    pose proof (scoreOf_range m (masteryKey o t') Hm). lia. }
  assert (Hlen : length ws = length tables) by apply length_map.
  assert (Hi : (i < length ws)%nat) by (rewrite Hlen; eapply lookup_lt_Some, Ht).
  destruct (lookup_lt_is_Some_2 ws i Hi) as [w Hw].
  assert (Hw1 : 1 <= w).
  { rewrite Forall_forall in Hall. apply Hall. eapply list_elem_of_lookup_2, Hw. }
  pose proof (weightSum_take_S ws i w Hw) as Hsum.
  pose proof (weightSum_take_le ws (S i) Hall) as Hle.
  pose proof (weightSum_take_mono ws Hall 0 i ltac:(lia)) as H0i. simpl in H0i.
  pose proof (totalWeightOf_sum ws) as Htot.
  set (P := weightSum (take (S i) ws)) in *.
  set (T := totalWeightOf ws) in *.
  assert (HP : (1 <= inject_Z P)%Q) by (change 1%Q with (inject_Z 1); rewrite <- Zle_Qle; lia).
  assert (HPT : (inject_Z P <= inject_Z T)%Q) by (rewrite <- Zle_Qle; lia).
  assert (HT : (0 < inject_Z T)%Q) by lra.
  exists ((inject_Z P - (1 # 4)) / inject_Z T)%Q.
  split; [apply Qle_shift_div_l; [exact HT | lra]|].
  split; [apply Qlt_shift_div_r; [exact HT | lra]|].
  intros g Hg.
  assert (Hx : (g 0%nat * inject_Z T == inject_Z P - (1 # 4))%Q).
  { rewrite Hg. field. lra. }
  set (random := roundDouble (g 0%nat * inject_Z T)).
  assert (Hnear : (inject_Z P - (3 # 4) <= random)%Q).
  { pose proof (roundDouble_near (g 0%nat * inject_Z T) ltac:(lra)). unfold random. lra. }
  assert (Hbelow : (random <= inject_Z P)%Q).
  { apply roundDouble_le; lra. }
  assert (Hpick : (pickTable m o tables g).1 = nth (weightedIndex ws random 0) tables 0)
    by reflexivity.
  rewrite Hpick, (weightedIndex_unique ws random i Hi).
  - apply nth_lookup_Some, Ht.
  - unfold remainderAfter. fold P. lra.
  - intros j Hj. unfold remainderAfter.
    pose proof (weightSum_take_mono ws Hall (S j) i ltac:(lia)) as Hji.
    assert (Hq : (inject_Z (weightSum (take (S j) ws)) + 1 <= inject_Z P)%Q).
    { change 1%Q with (inject_Z 1). rewrite <- inject_Z_plus, <- Zle_Qle. lia. }
    lra.
Qed.

(** ** After the answer *)

(** What an answered round leaves of the timer: stopped when the session
    ends, restarted by the render in which the question was answered
    otherwise. *)
Lemma answerRound_timer (s : string) (st : AppState) (ex : Exercise) (g : Rng) :
  mode st = ModePractice -> currentExercise st = Some ex -> feedback st = None ->
  timeouts st = [] -> s <> "" -> allDecimal s = true ->
  let st' := (run (answerRound s) st g).1 in
  if 10 <=? total (stats st) + 1 then timerRef st' = None
  else timerRef st' = Some (renderOf (setUserAnswer s st)) /\ timeLeft st' = 15%Q.
Proof.
  intros Hmode Hex Hfb Hto Hne Hdec.
  assert (Hen : inputEnabled st = true).
  { unfold inputEnabled, practiceShown. rewrite Hmode, Hex, Hfb. reflexivity. }
  rewrite run_answerRound. cbv zeta. rewrite Hen.
  assert (Hen' : submitEnabled (setUserAnswer s st) = true).
  { unfold submitEnabled. change (inputEnabled (setUserAnswer s st)) with (inputEnabled st).
    rewrite Hen. exact Hdec. }
  rewrite Hen'. unfold handleSubmit.
  rewrite bool_decide_eq_false_2 by exact Hne.
  change (userAnswer (setUserAnswer s st)) with s.
  destruct (handleAnswer_accepted (renderOf (setUserAnswer s st)) (Some s)
              (setUserAnswer s st) ex Hex Hfb)
    as (_ & _ & Hs2 & _ & Hr2 & Hto2 & _).
  remember (handleAnswer (renderOf (setUserAnswer s st)) (Some s) (setUserAnswer s st))
    as st2 eqn:Hst2.
  change (timeouts (setUserAnswer s st)) with (timeouts st) in Hto2.
  rewrite Hto in Hto2. simpl app in Hto2.
  unfold timeoutFires. rewrite Hto2. unfold advance.
  simpl s_nextStats. simpl s_render. rewrite Hs2.
  simpl in Hs2. cbv zeta. simpl.
  destruct (10 <=? total (stats st) + 1) eqn:E.
  - simpl. exact Hr2.
  - unfold bind.
    destruct (generateExercise (settings st) (mastery st) (currentExercise st) g)
      as [next g'].
    simpl. split; reflexivity.
Qed.




(** X20. In a session over a single division table and no multiplication
    table, answering a question on that table never brings a next one: all
    20 attempts share the divisor of the answered exercise, so the current
    exercise becomes null while the mode stays [practice]. *)
Theorem single_division_table_loses_next_question (st : AppState) (ex : Exercise)
    (t : Z) (s : string) (g : Rng) :
  multiplicationTables (settings st) = [] -> divisionTables (settings st) = [t] ->
  mode st = ModePractice -> currentExercise st = Some ex -> b ex = t ->
  feedback st = None -> timeouts st = [] ->
  s <> "" -> allDecimal s = true -> total (stats st) + 1 < 10 ->
  unitDraws g ->
  let st' := (run (answerRound s) st g).1 in
  mode st' = ModePractice /\ currentExercise st' = None /\
  total (stats st') = total (stats st) + 1.
Proof.
  intros Hmt Hdt Hmode Hex Hb Hfb Hto Hne Hdec Hlt Hg st'.
  destruct (answerRound_accepted s st ex g Hmode Hex Hfb Hto Hne Hdec)
    as (Hs & _ & _ & _ & Hnext).
  fold st' in Hs, Hnext.
  assert (E : (10 <=? total (stats st) + 1) = false) by (apply Z.leb_gt; lia).
  rewrite E in Hnext. destruct Hnext as (Hm & _ & Hcur).
  split; [exact Hm|]. split; [|rewrite Hs; reflexivity].
  rewrite Hcur.
  assert (Hset : settings st = {| multiplicationTables := []; divisionTables := [t];
                                  exerciseCount := exerciseCount (settings st) |})
    by (apply settings_ext; simpl; auto).
  rewrite Hset. apply single_division_table_exhausts; assumption.
Qed.

(** X21. A session started from a screen without a current exercise (a
    freshly loaded app) or with feedback still showing (the results of the
    previous session) never scores a timeout on its first question: however
    many ticks pass, no feedback appears, statistics and history stay empty,
    no mastery score changes and the question stays on screen. *)
Theorem first_question_timeout_is_dropped (st0 : AppState) (g : Rng) (n : nat) :
  mode st0 <> ModePractice ->
  multiplicationTables (settings st0) <> [] \/ divisionTables (settings st0) <> [] ->
  currentExercise st0 = None \/ feedback st0 <> None ->
  let st := (run (ClickStart :: repeat IntervalFires n) st0 g).1 in
  mode st = ModePractice /\
  currentExercise st = (generateExercise (settings st0) (mastery st0) None g).1 /\
  feedback st = None /\ stats st = {| correct := 0; total := 0 |} /\
  history st = [] /\ mastery st = mastery st0.
Proof.
  intros Hmode Hne Hstale st.
  destruct (first_question_never_times_out st0 g n Hmode Hne Hstale)
    as (Hf & Hs & Hh & Hm & _ & Hc).
  fold st in Hf, Hs, Hh, Hm, Hc.
  destruct (startPractice_started st0 g Hne) as (Hmode' & _ & _ & _ & _ & _ & _ & _ & _ & _ & Hcur).
  repeat split; try assumption; [|rewrite Hc; exact Hcur].
  unfold st. rewrite run_cons, (step_ClickStart _ _ Hmode), run_ticks. simpl fst.
  clear - Hmode'. induction n as [|k IH]; [exact Hmode'|].
  simpl. unfold intervalTick at 1.
  destruct (timerRef (Nat.iter k intervalTick (startPractice st0 g).1)) as [r|]; [|exact IH].
  destruct (Qle_bool _ (1 # 20)); [|exact IH].
  change (mode (setTimeLeft 0 ?x)) with (mode x).
  unfold handleAnswer. destruct (r_currentExercise r); [|exact IH].
  destruct (r_feedback r); exact IH.
Qed.

Lemma tick_running (st : AppState) (r : Render) :
  timerRef st = Some r ->
  timerRef (intervalTick st) = None \/
  (timerRef (intervalTick st) = Some r /\ history (intervalTick st) = history st /\
   stats (intervalTick st) = stats st /\ feedback (intervalTick st) = feedback st /\
   mastery (intervalTick st) = mastery st /\
   currentExercise (intervalTick st) = currentExercise st /\
   timeouts (intervalTick st) = timeouts st).
Proof.
  intros Href. unfold intervalTick. rewrite Href.
  destruct (Qle_bool (timeLeft st) (1 # 20)).
  - left. change (timerRef (setTimeLeft 0 ?x)) with (timerRef x).
    unfold handleAnswer. destruct (r_currentExercise r); [|reflexivity].
    destruct (r_feedback r); reflexivity.
  - right. simpl. repeat split; try reflexivity. exact Href.
Qed.

Lemma ticks_before_expiry (st : AppState) (r : Render) (k : nat) :
  timerRef st = Some r ->
  let late := Nat.iter k intervalTick st in
  timerRef late = None \/
  (timerRef late = Some r /\ history late = history st /\ stats late = stats st /\
   feedback late = feedback st /\ mastery late = mastery st /\
   currentExercise late = currentExercise st /\ timeouts late = timeouts st).
Proof.
  intros Href. induction k as [|k IH]; cbv zeta in *.
  - right. repeat split; auto.
  - rewrite Nat.iter_succ.
    destruct IH as [Hnone | (Hr & Hh & Hs & Hf & Hm & Hc & Ht)].
    + left. rewrite (intervalTick_idle _ Hnone). exact Hnone.
    + destruct (tick_running _ r Hr) as [Hnone | (Hr' & Hh' & Hs' & Hf' & Hm' & Hc' & Ht')].
      * left. exact Hnone.
      * right. repeat split; congruence.
Qed.

(** X22. After a question answered by hand, the timer of the next question
    belongs to the render in which that answer was given.  When its
    countdown expires, the timeout is recorded as an incorrect answer to the
    exercise just answered, not to the one on screen, and the statistics are
    rebuilt from those of before that answer. *)
Theorem timeout_after_answer_scores_answered_exercise (st : AppState) (ex : Exercise)
    (s : string) (g : Rng) (k : nat) :
  mode st = ModePractice -> currentExercise st = Some ex -> feedback st = None ->
  timeouts st = [] -> s <> "" -> allDecimal s = true -> total (stats st) + 1 < 10 ->
  let st' := (run (answerRound s) st g).1 in
  let late := Nat.iter k intervalTick st' in
  timerRef late <> None -> Qle_bool (timeLeft late) (1 # 20) = true ->
  let expired := intervalTick late in
  feedback expired = Some FeedbackIncorrect /\
  history expired =
    history st ++ [{| exercise := ex; answeredCorrectly := isCorrectAnswer (Some s) ex |};
                   {| exercise := ex; answeredCorrectly := false |}] /\
  stats expired = {| correct := correct (stats st); total := total (stats st) + 1 |} /\
  currentExercise expired = currentExercise st' /\
  timerRef expired = None.
Proof.
  intros Hmode Hex Hfb Hto Hne Hdec Hlt st' late Hrun Hdue expired.
  pose proof (answerRound_timer s st ex g Hmode Hex Hfb Hto Hne Hdec) as Htimer.
  destruct (answerRound_accepted s st ex g Hmode Hex Hfb Hto Hne Hdec)
    as (_ & Hh & _).
  fold st' in Htimer, Hh.
  assert (E : (10 <=? total (stats st) + 1) = false) by (apply Z.leb_gt; lia).
  rewrite E in Htimer. destruct Htimer as [Href _].
  set (r := renderOf (setUserAnswer s st)) in *.
  subst expired late.
  destruct (ticks_before_expiry st' r k Href) as [Hnone | (Hr & Hh' & _ & _ & _ & Hc & _)];
    [contradiction|].
  remember (Nat.iter k intervalTick st') as late eqn:Hlate.
  assert (Hexp : intervalTick late = setTimeLeft 0 (handleAnswer r None (stopTimer late))).
  { unfold intervalTick. rewrite Hr, Hdue. reflexivity. }
  destruct (handleAnswer_accepted r None (stopTimer late) ex Hex Hfb)
    as (Hf2 & _ & Hs2 & Hh2 & Hr2 & _ & _ & _ & Hc2 & _).
  rewrite Hexp. simpl. rewrite Hf2, Hs2, Hh2, Hr2, Hc2. simpl.
  rewrite Hh', Hh, Hc, <- app_assoc, Z.add_0_r. simpl. repeat split; reflexivity.
Qed.

(** X23. Clamped updates compose: [k] correct answers in a row on the same
    key take a score [s] in [0,10] to [min(10, s + k)], and [k] incorrect
    ones to [max(0, s - k)]; ten correct answers reach 10 from any start. *)
Theorem repeated_updates_saturate (key : string) (isCorrect : bool)
    (m : MasteryData) (k : nat) :
  0 <= scoreOf m key <= 10 ->
  scoreOf (Nat.iter k (updateMastery key isCorrect) m) key =
  if isCorrect then Z.min 10 (scoreOf m key + Z.of_nat k)
  else Z.max 0 (scoreOf m key - Z.of_nat k).
Proof.
  intros Hs. induction k as [|k IH].
  - simpl. destruct isCorrect; lia.
  - rewrite Nat.iter_succ. unfold updateMastery at 1. unfold scoreOf at 1.
    rewrite lookup_insert_eq. simpl. rewrite IH.
    unfold nextScoreOf. destruct isCorrect; lia.
Qed.

(** ** The further properties at concrete inputs *)

Lemma twoOperations_ok : settingsOk twoOperations.
Proof.
  unfold settingsOk, ascending, twoOperations. simpl.
  repeat split; repeat constructor; lia.
Qed.

Lemma toggleTable_twice_witness :
  toggleTable 3 multiplication (toggleTable 3 multiplication twoOperations) = twoOperations.
Proof.
  apply (toggleTable_twice 3 multiplication twoOperations).
  exact (proj1 twoOperations_ok).
Defined.

Lemma table_sets_stay_well_formed_witness :
  settingsOk
    (settings (run [ClickTable division 7; ClickTable multiplication 5; ClickStart]
                 (initialState (Some twoOperations) None) exampleDraws).1).
Proof.
  apply (table_sets_stay_well_formed
           [ClickTable division 7; ClickTable multiplication 5; ClickStart]
           (initialState (Some twoOperations) None) exampleDraws).
  exact twoOperations_ok.
Defined.

Lemma mastery_scores_stay_in_range_witness :
  masteryInRange
    (mastery (run [PressEnter; TimeoutFires] (asking tenTimesFive "50") exampleDraws).1).
Proof.
  apply (mastery_scores_stay_in_range [PressEnter; TimeoutFires]
           (asking tenTimesFive "50") exampleDraws).
  exact someMastery_inRange.
Defined.

Lemma returned_exercise_differs_in_every_field_witness :
  let e := mkExercise 10 2 multiplication 20 None None in
  a e <> a fiveByFive /\ b e <> b fiveByFive /\ result e <> result fiveByFive.
Proof.
  apply (returned_exercise_differs_in_every_field twoOperations someMastery
           fiveByFive (mkExercise 10 2 multiplication 20 None None) exampleDraws).
  vm_compute. reflexivity.
Defined.

Lemma multiplication_exercise_band_witness :
  exists table, In table (multiplicationTables twoOperations) /\
    multiplicationBand table (scoreOf someMastery (masteryKey multiplication table))
      compoundExercise.
Proof.
  apply (multiplication_exercise_band twoOperations someMastery None compoundDraws).
  - apply unitDraws_drawsOf. reflexivity.
  - vm_compute. reflexivity.
  - reflexivity.
Defined.

Lemma credited_table_is_configured_witness :
  In (tableKeyOf twoOperations compoundExercise)
     (selectedTablesOf twoOperations (op compoundExercise)).
Proof.
  apply (credited_table_is_configured twoOperations someMastery None compoundDraws).
  - apply unitDraws_drawsOf. reflexivity.
  - vm_compute. reflexivity.
Defined.

Lemma exercise_numbers_bounded_witness :
  0 <= a compoundExercise <= 150 /\ 0 <= b compoundExercise <= 15 /\
  0 <= result compoundExercise <= 150.
Proof.
  apply (exercise_numbers_bounded twoOperations someMastery None compoundDraws).
  - apply unitDraws_drawsOf. reflexivity.
  - exact twoOperations_ok.
  - vm_compute. reflexivity.
Defined.

Lemma other_scores_untouched_witness :
  let st := asking tenTimesFive "50" in
  scoreOf (mastery (handleAnswer (renderOf st) (Some "50") st)) (masteryKey division 4)
  = scoreOf (mastery st) (masteryKey division 4).
Proof.
  apply (other_scores_untouched (renderOf (asking tenTimesFive "50")) (Some "50")
           (asking tenTimesFive "50") tenTimesFive division 4).
  - reflexivity.
  - reflexivity.
  - left. discriminate.
Defined.


Lemma startPractice_fresh_session_witness :
  mode (startPractice twentyOfFive exampleDraws).1 = ModePractice.
Proof.
  destruct (startPractice_fresh_session twentyOfFive exampleDraws) as (_ & Hmode & _).
  - left. discriminate.
  - exact unitDraws_exampleDraws.
  - exact Hmode.
Defined.

Lemma history_append_only_witness :
  exists later,
    history (run [PressEnter; TimeoutFires; IntervalFires]
               (asking tenTimesFive "50") exampleDraws).1
    = history (asking tenTimesFive "50") ++ later.
Proof.
  apply (history_append_only [PressEnter; TimeoutFires; IntervalFires]
           (asking tenTimesFive "50") exampleDraws).
  simpl. intros [H | [H | [H | []]]]; discriminate H.
Defined.

Lemma countdown_stays_in_range_witness :
  timeLeftInRange (run (ClickStart :: repeat IntervalFires 3) twentyOfFive exampleDraws).1.
Proof.
  apply (countdown_stays_in_range (ClickStart :: repeat IntervalFires 3)
           twentyOfFive exampleDraws).
  exact fifteen_inRange.
Defined.

Lemma typed_answer_judged_by_value_witness :
  feedback (run [TypeAnswer "50"; PressEnter] (asking tenTimesFive "") exampleDraws).1
  = Some FeedbackCorrect.
Proof.
  destruct (typed_answer_judged_by_value (asking tenTimesFive "") tenTimesFive "50"
              exampleDraws) as [Hdigits _].
  - reflexivity.
  - reflexivity.
  - reflexivity.
  - discriminate.
  - destruct (Hdigits eq_refl) as (Hcorrect & _). apply Hcorrect. reflexivity.
Defined.

Lemma typing_the_result_is_correct_witness :
  feedback (run [TypeAnswer (pretty (result tenTimesFive)); PressEnter]
              (asking tenTimesFive "") exampleDraws).1
  = Some FeedbackCorrect.
Proof.
  destruct (typing_the_result_is_correct (asking tenTimesFive "") tenTimesFive exampleDraws)
    as (Hf & _).
  - reflexivity.
  - reflexivity.
  - reflexivity.
  - simpl. lia.
  - exact Hf.
Defined.

Lemma every_table_can_be_drawn_witness :
  exists r : Q, (0 <= r)%Q /\ (r < 1)%Q /\
    forall g : Rng, (g 0%nat == r)%Q ->
      (pickTable someMastery multiplication [2; 5] g).1 = 5.
Proof.
  apply (every_table_can_be_drawn someMastery multiplication [2; 5] 1 5).
  - exact someMastery_inRange.
  - reflexivity.
Defined.


Lemma single_division_table_loses_next_question_witness :
  currentExercise (run (answerRound "10") askingFiftyByFive exampleDraws).1 = None.
Proof.
  destruct (single_division_table_loses_next_question askingFiftyByFive
              (mkExercise 50 5 division 10 None None) 5 "10" exampleDraws)
    as (_ & Hcur & _).
  - reflexivity.
  - reflexivity.
  - reflexivity.
  - reflexivity.
  - reflexivity.
  - reflexivity.
  - reflexivity.
  - discriminate.
  - reflexivity.
  - simpl. lia.
  - exact unitDraws_exampleDraws.
  - exact Hcur.
Defined.

Lemma first_question_timeout_is_dropped_witness :
  history (run (ClickStart :: repeat IntervalFires 300) twentyOfFive exampleDraws).1 = [].
Proof.
  destruct (first_question_timeout_is_dropped twentyOfFive exampleDraws 300)
    as (_ & _ & _ & _ & Hh & _).
  - discriminate.
  - left. discriminate.
  - left. reflexivity.
  - exact Hh.
Defined.

Lemma timeout_after_answer_scores_answered_exercise_witness :
  let st := (run [ClickStart] twentyOfFive exampleDraws).1 in
  let late := Nat.iter 299 intervalTick (run (answerRound "50") st exampleDraws).1 in
  history (intervalTick late) =
    history st ++
    [{| exercise := tenTimesFive; answeredCorrectly := isCorrectAnswer (Some "50") tenTimesFive |};
     {| exercise := tenTimesFive; answeredCorrectly := false |}].
Proof.
  pose proof (timeout_after_answer_scores_answered_exercise
                (run [ClickStart] twentyOfFive exampleDraws).1 tenTimesFive "50"
                exampleDraws 299) as H.
  cbv zeta in H |- *.
  apply H.
  - reflexivity.
  - reflexivity.
  - reflexivity.
  - reflexivity.
  - discriminate.
  - reflexivity.
  - vm_compute. reflexivity.
  - vm_compute. discriminate.
  - vm_compute. reflexivity.
Defined.

Lemma repeated_updates_saturate_witness :
  scoreOf (Nat.iter 3 (updateMastery "multiplication-5" true) someMastery) "multiplication-5"
  = Z.min 10 (scoreOf someMastery "multiplication-5" + 3).
Proof.
  apply (repeated_updates_saturate "multiplication-5" true someMastery 3).
  vm_compute. split; discriminate.
Defined.
